(** * Score-coordinate geometry of the OMR overlay (harmonia3)

    Shallow embedding of [src/src/utils/scoreParser.ts] (layout constants,
    pitch mapping, mock confidence, [parseScore]) and of the canvas renderer
    [src/unnamed/part_000] (calibration, [drawAllNotes], [findNoteAt]).

    JavaScript numbers are modelled as exact rationals together with [NaN]
    ([jsnum]); rounding is not modelled.  A division by zero, which gives an
    infinity or [NaN] in JavaScript, gives [NaN] here (the callers keep the
    calibration scales nonzero).  [Math.sin] and [Math.pow] of the mock
    confidence are modelled over the real numbers. *)

From Stdlib Require Import NArith ZArith QArith Qminmax Qround String Ascii List Bool Lia.
From Stdlib Require Import Reals Rpower Lqa.
From Stdlib Require Lra DecimalN.
Import ListNotations.

(* ------------------------------------------------------------------------- *)
(** ** JavaScript numbers *)

Inductive jsnum : Type :=
| Num (q : Q)
| NaN.

Definition jadd (a b : jsnum) : jsnum :=
  match a, b with Num x, Num y => Num (x + y)%Q | _, _ => NaN end.
Definition jsub (a b : jsnum) : jsnum :=
  match a, b with Num x, Num y => Num (x - y)%Q | _, _ => NaN end.
Definition jmul (a b : jsnum) : jsnum :=
  match a, b with Num x, Num y => Num (x * y)%Q | _, _ => NaN end.
Definition jdiv (a b : jsnum) : jsnum :=
  match a, b with
  | Num x, Num y => if Qeq_bool y 0 then NaN else Num (x / y)%Q
  | _, _ => NaN
  end.

(** [a < b], [a <= b] and [a === b]: false as soon as one side is [NaN]. *)
Definition jlt (a b : jsnum) : bool :=
  match a, b with Num x, Num y => negb (Qle_bool y x) | _, _ => false end.
Definition jle (a b : jsnum) : bool :=
  match a, b with Num x, Num y => Qle_bool x y | _, _ => false end.
Definition jseq (a b : jsnum) : bool :=
  match a, b with Num x, Num y => Qeq_bool x y | _, _ => false end.

(** [Math.max(a, b)]. *)
Definition jmax (a b : jsnum) : jsnum :=
  match a, b with Num x, Num y => Num (Qmax x y) | _, _ => NaN end.

Definition jnat (n : nat) : jsnum := Num (inject_Z (Z.of_nat n)).
Definition jZ (z : Z) : jsnum := Num (inject_Z z).

(** Numeric equality of two JavaScript numbers (up to the representation of
    rationals). *)
Definition jeqv (a b : jsnum) : Prop :=
  match a, b with
  | Num x, Num y => (x == y)%Q
  | NaN, NaN => True
  | _, _ => False
  end.

(* ------------------------------------------------------------------------- *)
(** ** Calibration transform (part_000, lines 172-180) *)

Record CalibrationState := mkCalib {
  offsetX : jsnum;
  offsetY : jsnum;
  scaleX : jsnum;
  scaleY : jsnum;
  noteScale : jsnum
}.

Definition DEFAULT_CALIBRATION : CalibrationState :=
  mkCalib (Num 0) (Num 0) (Num 1) (Num 1) (Num 1).

(** [raw * scale + offset] *)
Definition applyCalib (raw scale offset : jsnum) : jsnum :=
  jadd (jmul raw scale) offset.

(** [(px - offset) / scale] *)
Definition inverseCalib (px scale offset : jsnum) : jsnum :=
  jdiv (jsub px offset) scale.

(* ------------------------------------------------------------------------- *)
(** ** Layout constants and measure positions (scoreParser.ts) *)

Definition PAGE_W : Q := 1365.
Definition PAGE_H : Q := 1922.
Definition LEFT_MARGIN : Z := 130.
Definition STAFF_H : Z := 40.

Definition STAFF_TOPS : list (list Z) := [[333; 445; 556]; [785; 897; 1008]]%Z.

Definition MEASURE_WIDTHS : list Z := [292; 226; 295; 293; 378; 306; 340; 83]%Z.

Definition SYS_OF_MEASURE (i : nat) : nat := if (i <? 4)%nat then 0%nat else 1%nat.

(** [Array.prototype.slice(start, end)] for [0 <= start]. *)
Definition js_slice {A} (l : list A) (start stop : nat) : list A :=
  firstn (stop - start) (skipn start l).

Definition measureStartX (measureIdx : nat) : Z :=
  let sysStart := if (measureIdx <? 4)%nat then 0%nat else 4%nat in
  let cumW := fold_left Z.add (js_slice MEASURE_WIDTHS sysStart measureIdx) 0%Z in
  (LEFT_MARGIN + cumW)%Z.

(** The spec's reading: left margin plus the widths of the earlier measures
    of the same system. *)
Definition measure_start_spec (i : nat) : Z :=
  (LEFT_MARGIN +
   fold_right Z.add 0%Z
     (map (fun j => nth j MEASURE_WIDTHS 0%Z)
        (filter (fun j => (j <? i)%nat && (SYS_OF_MEASURE j =? SYS_OF_MEASURE i)%nat)
           (seq 0 8))))%Z.

(* ------------------------------------------------------------------------- *)
(** ** Pitch to staff offset (scoreParser.ts, lines 43-64) *)

(** [STEP_NUM[step]]: [None] is [undefined]. *)
Definition STEP_NUM (step : string) : option Z :=
  if String.eqb step "C" then Some 0%Z
  else if String.eqb step "D" then Some 1%Z
  else if String.eqb step "E" then Some 2%Z
  else if String.eqb step "F" then Some 3%Z
  else if String.eqb step "G" then Some 4%Z
  else if String.eqb step "A" then Some 5%Z
  else if String.eqb step "B" then Some 6%Z
  else None.

Definition pitchToYOffset (step : string) (octave partIndex : jsnum) : jsnum :=
  let stepNum := match STEP_NUM step with Some k => jZ k | None => NaN end in
  let p := jadd (jmul octave (Num 7)) stepNum in
  if jseq partIndex (Num 2)
  then jsub (Num 130) (jmul (Num 5) p)
  else jsub (Num 155) (jmul (Num 5) p).

Definition STEPS : list string := ["C"; "D"; "E"; "F"; "G"; "A"; "B"]%string.

(* ------------------------------------------------------------------------- *)
(** ** Note records (types.ts) *)

Inductive NoteType : Type :=
| Whole | Half | Quarter | Eighth | Sixteenth | ThirtySecond | SixtyFourth.

(** The value stored in [noteType]: one of the seven names, or, when
    [normaliseNoteType] looks up a key inherited from [Object.prototype]
    (such as ["constructor"]), the inherited member of that name. *)
Inductive NoteTypeVal : Type :=
| NT (t : NoteType)
| NTInherited (name : string).

Inductive StemDir : Type := StemUp | StemDown | StemNone.

Inductive NoteStatus : Type := Unreviewed | Verified | Corrected.

Record NoteData := mkNote {
  id : string;
  step : string;
  octave : jsnum;
  alter : jsnum;
  noteType : NoteTypeVal;
  absX : jsnum;
  absY : jsnum;
  stemDir : StemDir;
  confidence : R;
  partIndex : nat;
  measureNum : string;
  measureIndex : nat;
  systemIndex : nat;
  isRest : bool;
  status : NoteStatus
}.

(* ------------------------------------------------------------------------- *)
(** ** Canvas renderer (part_000, lines 1-243)

    The 2D context is modelled by the sequence of calls made on it. *)

Inductive Glyph : Type := GlyphFlat | GlyphSharp.

Inductive cmd : Type :=
| ClearRect (x y w h : jsnum)
| Save
| Restore
| Translate (x y : jsnum)
| Rotate (angle : R)
| BeginPath
| Ellipse (x y rx ry rotation startAngle : jsnum) (endAngle : R)
| SetFillStyle (c : string)
| SetStrokeStyle (c : string)
| SetLineWidth (w : jsnum)
| Fill
| Stroke
| MoveTo (x y : jsnum)
| LineTo (x y : jsnum)
| BezierCurveTo (cp1x cp1y cp2x cp2y x y : jsnum)
| SetFontBoldSerif (px : jsnum)   (* ctx.font = `bold ${px}px serif` *)
| SetTextAlign (a : string)
| SetTextBaseline (b : string)
| FillText (g : Glyph) (x y : jsnum).

Definition COLOR_ABOVE : string := "#2563eb".
Definition COLOR_BELOW : string := "#dc2626".
Definition COLOR_VERIFIED : string := "#16a34a".

(** [note.confidence >= threshold]; false when [threshold] is [NaN]. *)
Definition conf_ge (c : R) (threshold : jsnum) : bool :=
  match threshold with
  | Num t => if Rle_dec (Q2R t) c then true else false
  | NaN => false
  end.

Definition noteColor (note : NoteData) (threshold : jsnum) : string :=
  match status note with
  | Verified | Corrected => COLOR_VERIFIED
  | Unreviewed => if conf_ge (confidence note) threshold then COLOR_ABOVE else COLOR_BELOW
  end.

Definition isUp (sd : StemDir) : bool :=
  match sd with StemUp => true | _ => false end.

Definition TILT : R := (- PI / 9)%R.

Definition drawHead (cx cy rx ry : jsnum) (color : string) (open : bool) : list cmd :=
  [Save; Translate cx cy; Rotate TILT; BeginPath;
   Ellipse (Num 0) (Num 0) rx ry (Num 0) (Num 0) (PI * 2)%R] ++
  (if open
   then [SetFillStyle "rgba(255,255,255,0)"; SetStrokeStyle color;
         SetLineWidth (jmax (Num 1.5) (jmul rx (Num 0.4))); Fill; Stroke]
   else [SetFillStyle color; Fill]) ++
  [Restore].

(** Returns the calls made and the stem tip. *)
Definition drawStem (cx cy rx : jsnum) (sd : StemDir) (stemLen : jsnum) (color : string)
  : list cmd * (jsnum * jsnum) :=
  match sd with
  | StemNone => ([], (cx, cy))
  | _ =>
      let sx := if isUp sd then jadd cx (jmul rx (Num 0.85)) else jsub cx (jmul rx (Num 0.85)) in
      let sy := if isUp sd then jsub cy stemLen else jadd cy stemLen in
      ([BeginPath; MoveTo sx cy; LineTo sx sy; SetStrokeStyle color;
        SetLineWidth (jmax (Num 1) (jmul rx (Num 0.22))); Stroke], (sx, sy))
  end.

Definition drawFlags (tx ty : jsnum) (sd : StemDir) (flagCount : nat) (rx ry : jsnum)
  (color : string) : list cmd :=
  match sd, flagCount with
  | StemNone, _ | _, O => []
  | _, _ =>
      let spacing := jmul ry (Num 1.8) in
      let sweep := if isUp sd then Num 1 else Num (-1) in
      let flagW := jmul rx (Num 3.5) in
      let flagH := jmul ry (Num 2.6) in
      [SetStrokeStyle color; SetLineWidth (jmax (Num 1.2) (jmul rx (Num 0.2)))] ++
      flat_map (fun f =>
        let startY := jadd ty (jmul (jmul (jmul sweep (jnat f)) spacing) (Num (-1))) in
        let cp1x := jadd tx (jmul flagW (Num 0.4)) in
        let cp1y := jadd startY (jmul (jmul sweep flagH) (Num 0.5)) in
        let cp2x := jadd tx flagW in
        let cp2y := jadd startY (jmul (jmul sweep flagH) (Num 0.9)) in
        let endX := jadd tx (jmul flagW (Num 0.5)) in
        let endY := jadd startY (jmul sweep flagH) in
        [BeginPath; MoveTo tx startY; BezierCurveTo cp1x cp1y cp2x cp2y endX endY; Stroke])
        (seq 0 flagCount)
  end.

(** [{ whole: 0, ..., '64th': 4 }[t] ?? 0]; an inherited member is a
    function, for which [fc > 0] is false, so it draws no flag. *)
Definition flagsForType (t : NoteTypeVal) : nat :=
  match t with
  | NT Whole | NT Half | NT Quarter => 0
  | NT Eighth => 1
  | NT Sixteenth => 2
  | NT ThirtySecond => 3
  | NT SixtyFourth => 4
  | NTInherited _ => 0
  end.

Definition drawAccidental (cx cy alter ry : jsnum) (color : string) : list cmd :=
  if jseq alter (Num 0) then []
  else
    let size := jmul ry (Num 1.7) in
    let ax := jsub cx (jmul ry (Num 2.6)) in
    [Save; SetFillStyle color; SetStrokeStyle color; SetFontBoldSerif (jmul size (Num 2));
     SetTextAlign "center"; SetTextBaseline "middle";
     FillText (if jlt alter (Num 0) then GlyphFlat else GlyphSharp) ax cy; Restore].

(** Number of passes of [while (ly >= lim) { ...; ly -= step }] for a
    positive [step] (for [step <= 0] and [ly >= lim] the source loops
    forever; [drawAllNotes] always passes a step of at least 4). *)
Definition ledger_fuel (ly lim step : jsnum) : nat :=
  match ly, lim, step with
  | Num a, Num b, Num s =>
      if Qle_bool s 0 then O else S (Z.to_nat (Qfloor ((a - b) / s)))
  | _, _, _ => O
  end.

Definition ledgerLine (cx ledgerW ly : jsnum) : list cmd :=
  [BeginPath; MoveTo (jsub cx ledgerW) ly; LineTo (jadd cx ledgerW) ly; Stroke].

(** [while (ly >= lim) { line(ly); ly -= step }] *)
Fixpoint ledger_above (fuel : nat) (cx ledgerW lim step ly : jsnum) : list cmd :=
  match fuel with
  | O => []
  | S f =>
      if jle lim ly
      then ledgerLine cx ledgerW ly ++ ledger_above f cx ledgerW lim step (jsub ly step)
      else []
  end.

(** [while (ly <= lim) { line(ly); ly += step }] *)
Fixpoint ledger_below (fuel : nat) (cx ledgerW lim step ly : jsnum) : list cmd :=
  match fuel with
  | O => []
  | S f =>
      if jle ly lim
      then ledgerLine cx ledgerW ly ++ ledger_below f cx ledgerW lim step (jadd ly step)
      else []
  end.

Definition drawLedgerLines (cx cy staffTop staffBottom lineSpacing rx : jsnum)
  (color : string) : list cmd :=
  let ledgerW := jmul rx (Num 2.4) in
  [SetStrokeStyle color; SetLineWidth (jmax (Num 1) (jmul rx (Num 0.2)))] ++
  (if jlt cy (jsub staffTop (jmul lineSpacing (Num 0.4)))
   then let ly := jsub staffTop lineSpacing in
        let lim := jsub cy (jmul lineSpacing (Num 0.4)) in
        ledger_above (ledger_fuel ly lim lineSpacing) cx ledgerW lim lineSpacing ly
   else []) ++
  (if jlt (jadd staffBottom (jmul lineSpacing (Num 0.4))) cy
   then let ly := jadd staffBottom lineSpacing in
        let lim := jadd cy (jmul lineSpacing (Num 0.4)) in
        ledger_below (ledger_fuel (jsub (Num 0) ly) (jsub (Num 0) lim) lineSpacing)
          cx ledgerW lim lineSpacing ly
   else []).

(** The heights of the ledger lines in a sequence of calls. *)
Fixpoint ledger_ys (l : list cmd) : list jsnum :=
  match l with
  | MoveTo _ y :: LineTo _ _ :: t => y :: ledger_ys t
  | _ :: t => ledger_ys t
  | [] => []
  end.

Definition STAFF_H_TENTHS : Q := 40.

(** [STAFF_TOPS[sysIdx]?.[partIndex] ?? 0] *)
Definition rawStaffTopOf (sysIdx partIdx : nat) : Z :=
  match nth_error STAFF_TOPS sysIdx with
  | Some row => match nth_error row partIdx with Some t => t | None => 0%Z end
  | None => 0%Z
  end.

(** Symbol sizes derived from the staff height in pixels. *)
Record Symbols := mkSymbols { sym_rx : jsnum; sym_ry : jsnum; sym_stemLen : jsnum; sym_lineSpacing : jsnum }.

Definition symbols (sy ns : jsnum) : Symbols :=
  let staffPx := jmul (jmul (Num STAFF_H_TENTHS) sy) ns in
  mkSymbols (jmax (Num 3.5) (jmul staffPx (Num 0.22)))
            (jmax (Num 2.5) (jmul staffPx (Num 0.13)))
            (jmax (Num 12) (jmul staffPx (Num 0.88)))
            (jmax (Num 2) (jmul staffPx (Num 0.25))).

Definition drawNote (sx sy : jsnum) (cal : CalibrationState) (S : Symbols) (threshold : jsnum)
  (note : NoteData) : list cmd :=
  if isRest note then []
  else
    let rx := sym_rx S in
    let ry := sym_ry S in
    let color := noteColor note threshold in
    let cx := applyCalib (jmul (absX note) sx) (scaleX cal) (offsetX cal) in
    let cy := applyCalib (jmul (absY note) sy) (scaleY cal) (offsetY cal) in
    let sysIdx := SYS_OF_MEASURE (measureIndex note) in
    let rawStaffTop := rawStaffTopOf sysIdx (partIndex note) in
    let staffTopPx := applyCalib (jmul (jZ rawStaffTop) sy) (scaleY cal) (offsetY cal) in
    let staffBottomPx :=
      applyCalib (jmul (jadd (jZ rawStaffTop) (Num STAFF_H_TENTHS)) sy) (scaleY cal) (offsetY cal) in
    let open := match noteType note with NT Whole | NT Half => true | _ => false end in
    let '(stemCmds, (tx, ty)) := drawStem cx cy rx (stemDir note) (sym_stemLen S) color in
    let fc := flagsForType (noteType note) in
    drawLedgerLines cx cy staffTopPx staffBottomPx (jmul (sym_lineSpacing S) (Num 2)) rx color ++
    drawAccidental cx cy (alter note) ry color ++
    drawHead cx cy rx ry color open ++
    stemCmds ++
    (if (0 <? fc)%nat then drawFlags tx ty (stemDir note) fc rx ry color else []).

Definition drawAllNotes (notes : list NoteData) (threshold canvasW canvasH : jsnum)
  (calibration : CalibrationState) : list cmd :=
  let sx := jdiv canvasW (Num PAGE_W) in
  let sy := jdiv canvasH (Num PAGE_H) in
  let S := symbols sy (noteScale calibration) in
  ClearRect (Num 0) (Num 0) canvasW canvasH ::
  flat_map (drawNote sx sy calibration S threshold) notes.

(** Head centres: the translations made by [drawHead]. *)
Fixpoint head_centres (l : list cmd) : list (jsnum * jsnum) :=
  match l with
  | Translate x y :: t => (x, y) :: head_centres t
  | _ :: t => head_centres t
  | [] => []
  end.

(** Radii of the note heads drawn. *)
Fixpoint head_radii (l : list cmd) : list (jsnum * jsnum) :=
  match l with
  | Ellipse _ _ rx ry _ _ _ :: t => (rx, ry) :: head_radii t
  | _ :: t => head_radii t
  | [] => []
  end.

(** Stems: the start and end heights of each [moveTo]/[lineTo] pair that
    [drawStem] strokes (the only such pair followed by a stroke style). *)
Fixpoint stem_segments (l : list cmd) : list (jsnum * jsnum) :=
  match l with
  | MoveTo _ y0 :: LineTo _ y1 :: SetStrokeStyle _ :: t => (y0, y1) :: stem_segments t
  | _ :: t => stem_segments t
  | [] => []
  end.

(** Ledger lines: the height of each [moveTo]/[lineTo] pair stroked at once,
    as [ledgerLine] draws it. *)
Fixpoint ledger_lines (l : list cmd) : list jsnum :=
  match l with
  | MoveTo _ y :: LineTo _ _ :: Stroke :: t => y :: ledger_lines t
  | _ :: t => ledger_lines t
  | [] => []
  end.

(* ------------------------------------------------------------------------- *)
(** ** Hit-test (part_000, lines 246-276) *)

Definition note_d2 (sx sy rawPx rawPy : jsnum) (note : NoteData) : jsnum :=
  let dx := jsub (jmul (absX note) sx) rawPx in
  let dy := jsub (jmul (absY note) sy) rawPy in
  jadd (jmul dx dx) (jmul dy dy).

(** The [for (const note of notes)] loop with its two mutable variables. *)
Fixpoint findNoteAt_loop (sx sy rawPx rawPy : jsnum) (best : option NoteData)
  (bestDist : jsnum) (l : list NoteData) : option NoteData :=
  match l with
  | [] => best
  | note :: t =>
      if isRest note then findNoteAt_loop sx sy rawPx rawPy best bestDist t
      else
        let d2 := note_d2 sx sy rawPx rawPy note in
        if jlt d2 bestDist
        then findNoteAt_loop sx sy rawPx rawPy (Some note) d2 t
        else findNoteAt_loop sx sy rawPx rawPy best bestDist t
  end.

(** [radius] defaults to 18 and [calibration] to [DEFAULT_CALIBRATION] in
    the source. *)
Definition findNoteAt (notes : list NoteData) (px py canvasW canvasH : jsnum)
  (calibration : CalibrationState) (radius : jsnum) : option NoteData :=
  let sx := jdiv canvasW (Num PAGE_W) in
  let sy := jdiv canvasH (Num PAGE_H) in
  let rawPx := inverseCalib px (scaleX calibration) (offsetX calibration) in
  let rawPy := inverseCalib py (scaleY calibration) (offsetY calibration) in
  findNoteAt_loop sx sy rawPx rawPy None (jmul radius radius) notes.

Definition withNoteScale (cal : CalibrationState) (ns : jsnum) : CalibrationState :=
  mkCalib (offsetX cal) (offsetY cal) (scaleX cal) (scaleY cal) ns.

(* ------------------------------------------------------------------------- *)
(** ** Sample inputs *)

(** A pitched note with status [Verified] (so that its colour does
    not consult the confidence), no stem and no accidental. *)
Definition sample_note (x y : Q) (pi mi : nat) : NoteData :=
  mkNote "p0-m1-n0" "C" (Num 4) (Num 0) (NT Quarter) (Num x) (Num y) StemNone 0%R
         pi "1" mi (SYS_OF_MEASURE mi) false Verified.

(** A canvas of the page's own size: one page tenth per pixel. *)
Definition page_canvas_W : jsnum := Num 1365.
Definition page_canvas_H : jsnum := Num 1922.

(* ------------------------------------------------------------------------- *)
(** ** Deterministic mock confidence (scoreParser.ts, lines 66-72)

    Over the real numbers.  [Math.floor x] is [IZR (Int_part x)], the
    greatest integer at or below [x].  [Math.pow(b, e)] for [b >= 0] and
    [e > 0] is [Rpower b e] for [b > 0] and [0] for [b = 0] (where [Rpower]
    would give [1]); the base used below is never negative. *)

Definition js_floor (x : R) : R := IZR (Int_part x).

Definition js_pow (b e : R) : R :=
  if Rle_dec b 0 then 0%R else Rpower b e.

Definition mockConfidence (partIdx measureIdx noteIdx : nat) : R :=
  let seed := (INR partIdx * 1000 + INR measureIdx * 100 + INR noteIdx)%R in
  let x := (sin (seed * 127.1 + 311.7) * 43758.5453123)%R in
  let r := (x - js_floor x)%R in
  (0.52 + 0.48 * js_pow r 0.55)%R.

(* ------------------------------------------------------------------------- *)
(** ** JSON values and the JavaScript operations [parseScore] uses *)

Open Scope string_scope.

(** A value produced by [JSON.parse] (plus [undefined]).  An object keeps
    its own properties in source order. *)
#[warnings="-register-all"]
Inductive val : Type :=
| VUndef
| VNull
| VBool (b : bool)
| VNum (n : jsnum)
| VStr (s : string)
| VArr (items : list val)
| VObj (fields : list (string * val)).

(** A computation that returns a value or throws. *)
Inductive res (A : Type) : Type :=
| Ok (a : A)
| Throw (msg : string).
Arguments Ok {A} a.
Arguments Throw {A} msg.

Definition bind {A B : Type} (m : res A) (k : A -> res B) : res B :=
  match m with Ok a => k a | Throw e => Throw e end.

Notation "x <- m ;; k" := (bind m (fun x => k))
  (at level 61, m at next level, right associativity).

(** Own property [k] of an object; [JSON.parse] keeps the last of duplicated
    keys. *)
Fixpoint own (k : string) (fs : list (string * val)) : option val :=
  match fs with
  | [] => None
  | (k', v) :: t =>
      match own k t with
      | Some w => Some w
      | None => if String.eqb k k' then Some v else None
      end
  end.

(** [v.k] and [v?.k] for a key that no prototype provides (all the keys the
    parser reads are such keys): [undefined] unless [v] is an object with
    that own property.  [v?.k] is [getp v k]; [v.k] is [get v k], which
    throws on [null] and [undefined]. *)
Definition getp (v : val) (k : string) : val :=
  match v with
  | VObj fs => match own k fs with Some w => w | None => VUndef end
  | _ => VUndef
  end.

Definition get (v : val) (k : string) : res val :=
  match v with
  | VUndef | VNull => Throw "TypeError"
  | _ => Ok (getp v k)
  end.

Definition nullish (v : val) : bool :=
  match v with VUndef | VNull => true | _ => false end.

Definition truthy (v : val) : bool :=
  match v with
  | VUndef | VNull => false
  | VBool b => b
  | VNum (Num q) => negb (Qeq_bool q 0)
  | VNum NaN => false
  | VStr s => negb (String.eqb s EmptyString)
  | VArr _ | VObj _ => true
  end.

(** [a ?? b] *)
Definition coalesce (a b : val) : val := if nullish a then b else a.

(** [arr[i]] *)
Definition at_index (l : list val) (i : nat) : val :=
  match nth_error l i with Some v => v | None => VUndef end.

(** [toArray] (scoreParser.ts, lines 486-489). *)
Definition toArray (v : val) : list val :=
  match v with
  | VUndef | VNull => []
  | VArr l => l
  | _ => [v]
  end.

(** ['senza-misura' in raw]: [in] throws on a value that is not an object. *)
Definition js_in (k : string) (v : val) : res bool :=
  match v with
  | VObj fs => Ok (match own k fs with Some _ => true | None => false end)
  | VArr _ => Ok false
  | _ => Throw "TypeError"
  end.

(** Decimal digits of a natural number, as [Number.prototype.toString]
    prints an integer. *)
Fixpoint uint_digits (d : Decimal.uint) : string :=
  match d with
  | Decimal.Nil => EmptyString
  | Decimal.D0 d => String "0"%char (uint_digits d)
  | Decimal.D1 d => String "1"%char (uint_digits d)
  | Decimal.D2 d => String "2"%char (uint_digits d)
  | Decimal.D3 d => String "3"%char (uint_digits d)
  | Decimal.D4 d => String "4"%char (uint_digits d)
  | Decimal.D5 d => String "5"%char (uint_digits d)
  | Decimal.D6 d => String "6"%char (uint_digits d)
  | Decimal.D7 d => String "7"%char (uint_digits d)
  | Decimal.D8 d => String "8"%char (uint_digits d)
  | Decimal.D9 d => String "9"%char (uint_digits d)
  end.

Definition N_to_decimal (n : N) : string := uint_digits (N.to_uint n).

Definition Z_to_decimal (z : Z) : string :=
  match z with
  | Zneg p => String "-"%char (N_to_decimal (Npos p))
  | _ => N_to_decimal (Z.to_N z)
  end.

(** [toUpperCase] and [toLowerCase] on ASCII letters. *)
Definition ascii_upper (c : ascii) : ascii :=
  let n := nat_of_ascii c in
  if (97 <=? n)%nat && (n <=? 122)%nat then ascii_of_nat (n - 32) else c.
Definition ascii_lower (c : ascii) : ascii :=
  let n := nat_of_ascii c in
  if (65 <=? n)%nat && (n <=? 90)%nat then ascii_of_nat (n + 32) else c.

Fixpoint toUpperCase (s : string) : string :=
  match s with
  | EmptyString => EmptyString
  | String c t => String (ascii_upper c) (toUpperCase t)
  end.
Fixpoint toLowerCase (s : string) : string :=
  match s with
  | EmptyString => EmptyString
  | String c t => String (ascii_lower c) (toLowerCase t)
  end.

(** The keys that a plain object literal inherits from [Object.prototype]. *)
Definition OBJECT_PROTOTYPE_KEYS : list string :=
  ["constructor"; "hasOwnProperty"; "isPrototypeOf"; "propertyIsEnumerable";
   "toLocaleString"; "toString"; "valueOf"; "__proto__"; "__defineGetter__";
   "__defineSetter__"; "__lookupGetter__"; "__lookupSetter__"]%string.

(** [normaliseNoteType] (scoreParser.ts, lines 491-502): [map[raw] ?? 'quarter']
    where [map] is an object literal, so an inherited key is found too. *)
Definition normaliseNoteType (raw : string) : NoteTypeVal :=
  if String.eqb raw "whole" then NT Whole
  else if String.eqb raw "half" then NT Half
  else if String.eqb raw "quarter" then NT Quarter
  else if String.eqb raw "eighth" then NT Eighth
  else if String.eqb raw "16th" then NT Sixteenth
  else if String.eqb raw "32nd" then NT ThirtySecond
  else if String.eqb raw "64th" then NT SixtyFourth
  else if existsb (String.eqb raw) OBJECT_PROTOTYPE_KEYS then NTInherited raw
  else NT Quarter.

Definition NOTE_TYPE_NAMES : list string :=
  ["whole"; "half"; "quarter"; "eighth"; "16th"; "32nd"; "64th"]%string.

(** [STAFF_TOPS[sysIdx][partIdx]]; [undefined] (so [NaN] after the
    addition) past the third part. *)
Definition staffTopOf (sysIdx partIdx : nat) : jsnum :=
  match nth_error STAFF_TOPS sysIdx with
  | Some row => match nth_error row partIdx with Some t => jZ t | None => NaN end
  | None => NaN
  end.

Record ClefInfo := mkClef { sign : string; clef_line : jsnum; octaveChange : jsnum }.
Record KeyInfo := mkKey { fifths : jsnum; mode : string }.
Record TimeInfo := mkTime { beats : option jsnum; beatType : option jsnum; senzaMisura : bool }.
Record PartInfo := mkPart {
  part_id : val;
  part_name : val;
  clef : ClefInfo;
  key : KeyInfo;
  time : TimeInfo
}.
Record ScoreLayout := mkLayout { pageWidth : jsnum; pageHeight : jsnum }.
Record ParseResult := mkResult {
  notes : list NoteData;
  layout : ScoreLayout;
  parts : list PartInfo
}.

(** The stem direction chosen from the note type and the lower-cased stem
    text. *)
Definition stemDirOf (noteType : NoteTypeVal) (stemText : string) : StemDir :=
  match noteType with
  | NT Whole => StemNone
  | _ =>
      if String.eqb stemText "up" then StemUp
      else if String.eqb stemText "down" then StemDown
      else StemNone
  end.

(** ** [parseScore] (scoreParser.ts, lines 350-484) *)

Section Parser.

(** [Number(s)] for a string [s] (whitespace, decimal, hexadecimal and
    exponent syntaxes): left abstract. *)
Variable str_to_num : string -> jsnum.
(** [String(x)] for a number [x] that is not an integer: left abstract. *)
Variable fmt_fraction : Q -> string.

(** [String(x)] for a number.  Integers print in decimal (JavaScript
    switches to exponent notation from [1e21] on, which is not modelled). *)
Definition num_to_string (n : jsnum) : string :=
  match n with
  | NaN => "NaN"
  | Num q =>
      if (Qnum q mod Zpos (Qden q) =? 0)%Z
      then Z_to_decimal (Qnum q / Zpos (Qden q))
      else fmt_fraction q
  end.

(** [String(v)]: an array is joined with [","] ([null] and [undefined]
    items give the empty string); an object prints as ["[object Object]"],
    unless it has an own [toString] property, which is not callable in a
    parsed document, so that the conversion throws. *)
Fixpoint js_String (v : val) : res string :=
  match v with
  | VUndef => Ok "undefined"
  | VNull => Ok "null"
  | VBool b => Ok (if b then "true" else "false")
  | VNum n => Ok (num_to_string n)
  | VStr s => Ok s
  | VArr items =>
      (fix join (l : list val) (sep : string) : res string :=
         match l with
         | [] => Ok EmptyString
         | x :: t =>
             s <- match x with VUndef | VNull => Ok EmptyString | _ => js_String x end ;;
             r <- join t "," ;;
             Ok (append sep (append s r))
         end) items EmptyString
  | VObj fs =>
      match own "toString" fs with
      | Some _ => Throw "TypeError"
      | None => Ok "[object Object]"
      end
  end.

(** [Number(v)]; an object or array goes through its string form. *)
Definition js_Number (v : val) : res jsnum :=
  match v with
  | VUndef => Ok NaN
  | VNull => Ok (Num 0)
  | VBool b => Ok (Num (if b then 1 else 0))
  | VNum n => Ok n
  | VStr s => Ok (str_to_num s)
  | VArr _ | VObj _ => (s <- js_String v ;; Ok (str_to_num s))
  end.

Definition parseClef (raw : val) : res ClefInfo :=
  if negb (truthy raw) then Ok (mkClef "G" (Num 2) (Num 0))
  else
    (s <- js_String (coalesce (getp raw "sign") (VStr "G")) ;;
     line <- js_Number (coalesce (getp raw "line") (VNum (Num 2))) ;;
     oc <- js_Number (coalesce (getp raw "clef-octave-change") (VNum (Num 0))) ;;
     Ok (mkClef (toUpperCase s) line oc)).

Definition parseKey (raw : val) : res KeyInfo :=
  if negb (truthy raw) then Ok (mkKey (Num 0) "major")
  else
    (f <- js_Number (coalesce (getp raw "fifths") (VNum (Num 0))) ;;
     m <- js_String (coalesce (getp raw "mode") (VStr "major")) ;;
     Ok (mkKey f m)).

(** [raw.k != null ? Number(raw.k) : null] *)
Definition optNumber (raw : val) (k : string) : res (option jsnum) :=
  if nullish (getp raw k) then Ok None
  else (n <- js_Number (getp raw k) ;; Ok (Some n)).

Definition parseTime (raw : val) : res TimeInfo :=
  if negb (truthy raw) then Ok (mkTime (Some (Num 4)) (Some (Num 4)) false)
  else
    (isSenza <- js_in "senza-misura" raw ;;
     b <- optNumber raw "beats" ;;
     bt <- optNumber raw "beat-type" ;;
     Ok (mkTime b bt isSenza)).

(** [`p${partIdx}-m${mNum}-n${noteIdx}`] *)
Definition mk_note_id (partIdx : nat) (mNum : string) (noteIdx : nat) : string :=
  append "p" (append (num_to_string (jnat partIdx))
    (append "-m" (append mNum (append "-n" (num_to_string (jnat noteIdx)))))).

(** The body of the [rawNotes.forEach] callback: the notes it pushes. *)
Definition parseNote (partIdx measureIdx : nat) (mNum : string)
    (mStartX staffTop : jsnum) (noteIdx : nat) (rawNote : val) : res (list NoteData) :=
  if negb (truthy rawNote) then Ok []
  else match getp rawNote "rest" with
  | VUndef =>
      let pitch := getp rawNote "pitch" in
      if negb (truthy pitch) then Ok []
      else
        (stepS <- js_String (coalesce (getp pitch "step") (VStr "C")) ;;
         let step := toUpperCase stepS in
         octave <- js_Number (coalesce (getp pitch "octave") (VNum (Num 4))) ;;
         alter <- (if nullish (getp pitch "alter") then Ok (Num 0)
                   else js_Number (getp pitch "alter")) ;;
         typeS <- js_String (coalesce (getp rawNote "type") (VStr "quarter")) ;;
         let noteType := normaliseNoteType typeS in
         noteX <- js_Number (coalesce (getp rawNote "_default-x")
                              (coalesce (getp rawNote "_default_x") (VNum (Num 0)))) ;;
         let stemObj := getp rawNote "stem" in
         stemS <- js_String (coalesce (getp stemObj "__text")
                              (coalesce (getp stemObj "__text") (VStr EmptyString))) ;;
         let stemText := toLowerCase stemS in
         let stemDir := stemDirOf noteType stemText in
         let yOffset := pitchToYOffset step octave (jnat partIdx) in
         let absX := jadd mStartX noteX in
         let absY := jadd staffTop yOffset in
         Ok [mkNote (mk_note_id partIdx mNum noteIdx) step octave alter noteType
                    absX absY stemDir (mockConfidence partIdx measureIdx noteIdx)
                    partIdx mNum measureIdx (SYS_OF_MEASURE measureIdx) false Unreviewed])
  | _ => Ok []
  end.

Fixpoint parseNotes (partIdx measureIdx : nat) (mNum : string) (mStartX staffTop : jsnum)
    (noteIdx : nat) (rawNotes : list val) : res (list NoteData) :=
  match rawNotes with
  | [] => Ok []
  | rawNote :: rest =>
      a <- parseNote partIdx measureIdx mNum mStartX staffTop noteIdx rawNote ;;
      b <- parseNotes partIdx measureIdx mNum mStartX staffTop (S noteIdx) rest ;;
      Ok (app a b)
  end.

(** [String(measure._number ?? measureIdx + 1)] *)
Definition mNum_of (measureIdx : nat) (measure : val) : res string :=
  n <- get measure "_number" ;;
  js_String (coalesce n (VNum (jnat (S measureIdx)))).

(** The body of the [measures.forEach] callback. *)
Definition parseMeasure (partIdx measureIdx : nat) (measure : val) : res (list NoteData) :=
  mNum <- mNum_of measureIdx measure ;;
  let mStartX := jZ (measureStartX measureIdx) in
  let sysIdx := SYS_OF_MEASURE measureIdx in
  let staffTop := staffTopOf sysIdx partIdx in
  let rawNotes := toArray (getp measure "note") in
  parseNotes partIdx measureIdx mNum mStartX staffTop 0 rawNotes.

Fixpoint parseMeasures (partIdx measureIdx : nat) (measures : list val) : res (list NoteData) :=
  match measures with
  | [] => Ok []
  | m :: rest =>
      a <- parseMeasure partIdx measureIdx m ;;
      b <- parseMeasures partIdx (S measureIdx) rest ;;
      Ok (app a b)
  end.

Definition partName (partIdx : nat) (rawSP : val) : val :=
  let nameRaw := getp rawSP "part-name" in
  match nameRaw with
  | VStr s => VStr s
  | _ =>
      coalesce (getp nameRaw "__text")
        (coalesce (getp (getp rawSP "score-instrument") "instrument-name")
           (VStr (append "Part " (num_to_string (jnat (S partIdx))))))
  end.

(** The body of the [rawParts.forEach] callback: the part info it pushes
    and the notes its measures push. *)
Definition parsePart (rawScoreParts : list val) (partIdx : nat) (part : val)
    : res (PartInfo * list NoteData) :=
  m <- get part "measure" ;;
  let measures := toArray m in
  let firstAttrs := coalesce (getp (at_index measures 0) "attributes") (VObj []) in
  c <- parseClef (getp firstAttrs "clef") ;;
  k <- parseKey (getp firstAttrs "key") ;;
  t <- parseTime (getp firstAttrs "time") ;;
  let rawSP := at_index rawScoreParts partIdx in
  let info := mkPart (coalesce (getp rawSP "_id")
                        (VStr (append "P" (num_to_string (jnat (S partIdx))))))
                     (partName partIdx rawSP) c k t in
  ns <- parseMeasures partIdx 0 measures ;;
  Ok (info, ns).

Fixpoint parseParts (rawScoreParts : list val) (partIdx : nat) (rawParts : list val)
    : res (list PartInfo * list NoteData) :=
  match rawParts with
  | [] => Ok ([], [])
  | part :: rest =>
      a <- parsePart rawScoreParts partIdx part ;;
      b <- parseParts rawScoreParts (S partIdx) rest ;;
      Ok (fst a :: fst b, app (snd a) (snd b))
  end.

Definition parseScore (json : val) : res ParseResult :=
  partwise <- get json "score-partwise" ;;
  if negb (truthy partwise) then Throw "Not a score-partwise JSON"
  else
    (let rawParts := toArray (getp partwise "part") in
     let rawScoreParts := toArray (getp (getp partwise "part-list") "score-part") in
     r <- parseParts rawScoreParts 0 rawParts ;;
     Ok (mkResult (snd r) (mkLayout (Num PAGE_W) (Num PAGE_H)) (fst r))).

(** The measure numbers [mNum] of a part's measures, in order. *)
Fixpoint measure_numbers (measureIdx : nat) (measures : list val) : list (res string) :=
  match measures with
  | [] => []
  | m :: rest => mNum_of measureIdx m :: measure_numbers (S measureIdx) rest
  end.

End Parser.

(** ** Document shapes *)

(** [json['score-partwise']] *)
Definition wrapper (json : val) : val := getp json "score-partwise".

(** No object of the document has an own [toString] property. *)
Fixpoint no_own_toString (v : val) : bool :=
  match v with
  | VArr items => forallb no_own_toString items
  | VObj fs =>
      match own "toString" fs with Some _ => false | None => true end &&
      forallb (fun kv => no_own_toString (snd kv)) fs
  | _ => true
  end.

(** The first measure's time block can be searched with [in]. *)
Definition time_block_ok (t : val) : bool :=
  match t with VArr _ | VObj _ => true | _ => negb (truthy t) end.

Definition part_shaped (part : val) : bool :=
  negb (nullish part) &&
  (let measures := toArray (getp part "measure") in
   forallb (fun m => negb (nullish m)) measures &&
   time_block_ok
     (getp (coalesce (getp (at_index measures 0) "attributes") (VObj [])) "time")).

(** A document with the wrapper, no [null] part or measure, a searchable
    first time block, and no object with an own [toString]. *)
Definition shaped (json : val) : bool :=
  no_own_toString json && truthy (wrapper json) &&
  forallb part_shaped (toArray (getp (wrapper json) "part")).

Definition res_string_eqb (a b : res string) : bool :=
  match a, b with
  | Ok x, Ok y => String.eqb x y
  | Throw x, Throw y => String.eqb x y
  | _, _ => false
  end.

Fixpoint nodupb (l : list (res string)) : bool :=
  match l with
  | [] => true
  | x :: t => negb (existsb (res_string_eqb x) t) && nodupb t
  end.

(** Within each part, the measures' [mNum] strings are pairwise distinct. *)
Definition distinct_measure_numbers (fmt_fraction : Q -> string) (json : val) : bool :=
  forallb (fun part => nodupb (measure_numbers fmt_fraction 0 (toArray (getp part "measure"))))
          (toArray (getp (wrapper json) "part")).


(** Induction on JSON values, with the items of arrays and objects. *)
Section ValInd.
Variable P : val -> Prop.
Hypothesis HUndef : P VUndef.
Hypothesis HNull : P VNull.
Hypothesis HBool : forall b, P (VBool b).
Hypothesis HNum : forall n, P (VNum n).
Hypothesis HStr : forall s, P (VStr s).
Hypothesis HArr : forall items, Forall P items -> P (VArr items).
Hypothesis HObj : forall fs, Forall (fun kv => P (snd kv)) fs -> P (VObj fs).

Fixpoint val_ind2 (v : val) : P v :=
  match v with
  | VUndef => HUndef
  | VNull => HNull
  | VBool b => HBool b
  | VNum n => HNum n
  | VStr s => HStr s
  | VArr items =>
      HArr items
        ((fix go (l : list val) : Forall P l :=
            match l with
            | [] => Forall_nil _
            | x :: t => Forall_cons _ (val_ind2 x) (go t)
            end) items)
  | VObj fs =>
      HObj fs
        ((fix go (l : list (string * val)) : Forall (fun kv => P (snd kv)) l :=
            match l with
            | [] => Forall_nil _
            | kv :: t => Forall_cons _ (val_ind2 (snd kv)) (go t)
            end) fs)
  end.
End ValInd.

(** Digits of decimal numerals. *)
Definition is_digit (c : ascii) : bool :=
  let n := nat_of_ascii c in (48 <=? n)%nat && (n <=? 57)%nat.

Fixpoint all_digits (s : string) : bool :=
  match s with
  | EmptyString => true
  | String c t => is_digit c && all_digits t
  end.


(** ** Sample documents *)

(** Sample instances of the abstract conversions: every numeric string reads
    as [NaN], and a non-integer prints as the empty string. *)
Definition sample_str_to_num (s : string) : jsnum := NaN.
Definition sample_fmt_fraction (q : Q) : string := EmptyString.

(** The wrapper, with one [null] part. *)
Definition doc_null_part : val :=
  VObj [("score-partwise", VObj [("part", VArr [VNull])])].

(** One part whose first measure's time block is the string ["4/4"]. *)
Definition doc_string_time : val :=
  VObj [("score-partwise",
    VObj [("part", VObj [("measure",
      VObj [("attributes", VObj [("time", VStr "4/4")])])])])].

(** One part with two measures, each with one note whose pitch object is
    empty; the measures are numbered [n1] and [n2]. *)
Definition doc_two_measures (n1 n2 : string) : val :=
  VObj [("score-partwise",
    VObj [("part", VObj [("measure",
      VArr [VObj [("_number", VStr n1); ("note", VObj [("pitch", VObj [])])];
            VObj [("_number", VStr n2); ("note", VObj [("pitch", VObj [])])]])])])].

(** A document with most fields missing: no part list, no attributes, a
    measure without number or notes, a note without step, octave or type,
    and a note that is a bare number. *)
Definition doc_sparse : val :=
  VObj [("score-partwise",
    VObj [("part", VObj [("measure",
      VArr [VObj [("note", VArr [VObj [("pitch", VObj [])]; VNum (Num 3)])];
            VObj []])])])].

Close Scope string_scope.

(* ------------------------------------------------------------------------- *)
(** ** Earlier hit-test (part_000, lines 527-554)

    The version without calibration: the same loop, run on the query point
    itself. *)

Definition findNoteAt_v1 (notes : list NoteData) (px py canvasW canvasH : jsnum)
  (radius : jsnum) : option NoteData :=
  let sx := jdiv canvasW (Num PAGE_W) in
  let sy := jdiv canvasH (Num PAGE_H) in
  findNoteAt_loop sx sy px py None (jmul radius radius) notes.

(* ------------------------------------------------------------------------- *)
(** ** Canvas output: curves and glyphs *)

(** The number of Bezier curves (flags) in a sequence of calls. *)
Fixpoint curves (l : list cmd) : nat :=
  match l with
  | BezierCurveTo _ _ _ _ _ _ :: t => S (curves t)
  | _ :: t => curves t
  | [] => O
  end.

(** The accidental glyphs written. *)
Fixpoint glyphs (l : list cmd) : list Glyph :=
  match l with
  | FillText g _ _ :: t => g :: glyphs t
  | _ :: t => glyphs t
  | [] => []
  end.

(* ------------------------------------------------------------------------- *)
(** ** Note corrections (App.tsx, lines 214-296; EditNoteModal, part_001,
    lines 748-766; types.ts) *)

Record NoteCorrection := mkCorrection {
  corr_step : option string;
  corr_octave : option jsnum;
  corr_alter : option jsnum;
  corr_noteType : option NoteTypeVal;
  corr_status : NoteStatus
}.

(** A [Map<string, NoteCorrection>]: its entries in insertion order. *)
Definition CorrMap : Type := list (string * NoteCorrection).

(** [m.get(k)] *)
Fixpoint map_get (m : CorrMap) (k : string) : option NoteCorrection :=
  match m with
  | [] => None
  | (k', v) :: t => if String.eqb k k' then Some v else map_get t k
  end.

(** [m.set(k, v)]: a key already present keeps its place. *)
Fixpoint map_set (m : CorrMap) (k : string) (v : NoteCorrection) : CorrMap :=
  match m with
  | [] => [(k, v)]
  | (k', v') :: t => if String.eqb k k' then (k, v) :: t else (k', v') :: map_set t k v
  end.

(** [o ?? d] for an optional property. *)
Definition opt_or {A : Type} (o : option A) (d : A) : A :=
  match o with Some x => x | None => d end.

(** The callback of [notes.map] in [effectiveNotes]. *)
Definition applyCorrection (corrections : CorrMap) (n : NoteData) : NoteData :=
  match map_get corrections (id n) with
  | None => n
  | Some c =>
      mkNote (id n) (opt_or (corr_step c) (step n)) (opt_or (corr_octave c) (octave n))
        (opt_or (corr_alter c) (alter n)) (opt_or (corr_noteType c) (noteType n))
        (absX n) (absY n) (stemDir n) (confidence n) (partIndex n) (measureNum n)
        (measureIndex n) (systemIndex n) (isRest n) (corr_status c)
  end.

Definition effectiveNotes (notes : list NoteData) (corrections : CorrMap) : list NoteData :=
  map (applyCorrection corrections) notes.

(** [handleSaveCorrection] and [handleMarkOK]: the next value of
    [corrections]. *)
Definition handleSaveCorrection (nid : string) (correction : NoteCorrection)
  (prev : CorrMap) : CorrMap :=
  map_set prev nid correction.

Definition handleMarkOK (nid : string) (prev : CorrMap) : CorrMap :=
  map_set prev nid (mkCorrection None None None None Verified).

(** [correctedCount] *)
Definition correctedCount (corrections : CorrMap) : nat :=
  length (filter (fun c => match corr_status c with
                           | Corrected | Verified => true
                           | Unreviewed => false
                           end) (map snd corrections)).

(** The edit dialog's form: its four state variables, initialised from the
    note it is opened on. *)
Record NoteForm := mkForm {
  form_step : string;
  form_octave : jsnum;
  form_alter : jsnum;
  form_noteType : NoteTypeVal
}.

Definition initialForm (note : NoteData) : NoteForm :=
  mkForm (step note) (octave note) (alter note) (noteType note).

(** [handleSave] of the dialog: the arguments it passes to [onSave]. *)
Definition modalSave (note : NoteData) (f : NoteForm) : string * NoteCorrection :=
  (id note, mkCorrection (Some (form_step f)) (Some (form_octave f)) (Some (form_alter f))
                         (Some (form_noteType f)) Corrected).

(** The two buttons of the dialog, as wired in [App]: [onSave] is
    [handleSaveCorrection] and [onMarkOK] is [handleMarkOK]. *)
Inductive CorrectionAction : Type :=
| SaveEdit (note : NoteData) (f : NoteForm)
| MarkOK (note : NoteData).

Definition applyCorrectionAction (prev : CorrMap) (a : CorrectionAction) : CorrMap :=
  match a with
  | SaveEdit note f => let '(k, c) := modalSave note f in handleSaveCorrection k c prev
  | MarkOK note => handleMarkOK (id note) prev
  end.

Definition action_note (a : CorrectionAction) : NoteData :=
  match a with SaveEdit note _ => note | MarkOK note => note end.

(** The fields that no correction touches. *)
Definition note_place (n : NoteData) :=
  (id n, absX n, absY n, stemDir n, confidence n, partIndex n, measureNum n,
   measureIndex n, systemIndex n, isRest n).

(* ------------------------------------------------------------------------- *)
(** ** Calibration controls (App.tsx, lines 198-200 and 263-278;
    CalibrationPanel, part_001, lines 527-622) *)

Definition TOP_MARGIN : Z := 97.

Definition DEFAULT_CALIB : CalibrationState :=
  mkCalib (Num 0) (Num 0) (Num 1) (Num 1) (Num 1).

(** [handleCalibrationClick]: the next calibration (the handler also leaves
    calibration mode). *)
Definition handleCalibrationClick (px py canvasW canvasH : jsnum) (prev : CalibrationState)
  : CalibrationState :=
  let refRawX := jmul (jdiv (jZ LEFT_MARGIN) (Num PAGE_W)) canvasW in
  let refRawY := jmul (jdiv (jZ TOP_MARGIN) (Num PAGE_H)) canvasH in
  mkCalib (jsub px (jmul refRawX (scaleX prev))) (jsub py (jmul refRawY (scaleY prev)))
          (scaleX prev) (scaleY prev) (noteScale prev).

(** [Partial<CalibrationState>] *)
Record CalibrationPatch := mkPatch {
  patch_offsetX : option jsnum;
  patch_offsetY : option jsnum;
  patch_scaleX : option jsnum;
  patch_scaleY : option jsnum;
  patch_noteScale : option jsnum
}.

(** [set(patch)]: [{ ...calibration, ...patch }] *)
Definition calib_set (calibration : CalibrationState) (patch : CalibrationPatch)
  : CalibrationState :=
  mkCalib (opt_or (patch_offsetX patch) (offsetX calibration))
          (opt_or (patch_offsetY patch) (offsetY calibration))
          (opt_or (patch_scaleX patch) (scaleX calibration))
          (opt_or (patch_scaleY patch) (scaleY calibration))
          (opt_or (patch_noteScale patch) (noteScale calibration)).

(** What changes the calibration: the four sliders (a range input reports
    an integer value [v] of its range), the reset button, and a click in
    calibration mode. *)
Inductive CalibrationAction : Type :=
| SlideOffsetX (v : Z)
| SlideOffsetY (v : Z)
| SlideScale (v : Z)
| SlideNoteSize (v : Z)
| ResetCalibration
| CalibrationClick (px py canvasW canvasH : jsnum).

Definition applyCalibrationAction (calibration : CalibrationState) (a : CalibrationAction)
  : CalibrationState :=
  match a with
  | SlideOffsetX v => calib_set calibration (mkPatch (Some (jZ v)) None None None None)
  | SlideOffsetY v => calib_set calibration (mkPatch None (Some (jZ v)) None None None)
  | SlideScale v =>
      calib_set calibration
        (mkPatch None None (Some (jdiv (jZ v) (Num 100))) (Some (jdiv (jZ v) (Num 100))) None)
  | SlideNoteSize v =>
      calib_set calibration (mkPatch None None None None (Some (jdiv (jZ v) (Num 100))))
  | ResetCalibration => mkCalib (Num 0) (Num 0) (Num 1) (Num 1) (Num 1)
  | CalibrationClick px py canvasW canvasH =>
      handleCalibrationClick px py canvasW canvasH calibration
  end.

(** The ranges of the sliders: [min] to [max]. *)
Definition slider_in_range (a : CalibrationAction) : bool :=
  match a with
  | SlideOffsetX v | SlideOffsetY v => (-500 <=? v)%Z && (v <=? 500)%Z
  | SlideScale v => (50 <=? v)%Z && (v <=? 200)%Z
  | SlideNoteSize v => (40 <=? v)%Z && (v <=? 200)%Z
  | _ => true
  end.

(* ------------------------------------------------------------------------- *)
(** ** Statistics panel (Controls, part_001, lines 11-15) *)

(** [Math.round] *)
Definition js_round (q : Q) : Z := Qfloor (q + (1 # 2)).

(** [total], [above], [below] and [pct]. *)
Definition controlsStats (threshold : jsnum) (notes : list NoteData) : nat * nat * Z * Z :=
  let total := length (filter (fun n => negb (isRest n)) notes) in
  let above := length (filter (fun n => negb (isRest n) && conf_ge (confidence n) threshold) notes) in
  let below := (Z.of_nat total - Z.of_nat above)%Z in
  let pct := if (0 <? total)%nat
             then js_round ((inject_Z (Z.of_nat above) / inject_Z (Z.of_nat total)) * 100)
             else 0%Z in
  (total, above, below, pct).

(* ------------------------------------------------------------------------- *)
(** ** Staff view (VexFlowScore, part_001, lines 157-260) *)

Definition NUM_SYSTEMS : nat := 2.
Definition NUM_PARTS : nat := 3.
Definition MEAS_PER_SYS : nat := 4.

(** [partNotes]: the notes drawn on the staff of part [partIdx] in system
    [sysIdx]. *)
Definition vexPartNotes (notes : list NoteData) (sysIdx partIdx : nat) : list NoteData :=
  let measStart := (sysIdx * MEAS_PER_SYS)%nat in
  filter (fun n => (partIndex n =? partIdx)%nat && (measStart <=? measureIndex n)%nat &&
                   (measureIndex n <? measStart + MEAS_PER_SYS)%nat && negb (isRest n)) notes.

Record VexNoteView := mkVexView {
  vex_step : string;
  vex_octave : jsnum;
  vex_alter : jsnum;
  vex_noteType : NoteTypeVal;
  vex_color : string
}.

(** The body of the [for (const n of partNotes)] loop: the key, accidental,
    duration and colour of the staff note made for [n]. *)
Definition vexNoteView (corrections : CorrMap) (parts : list PartInfo) (threshold : jsnum)
  (partIdx : nat) (n : NoteData) : VexNoteView :=
  let corr := map_get corrections (id n) in
  let cget {A} (f : NoteCorrection -> option A) :=
    match corr with Some c => f c | None => None end in
  let step := toLowerCase (opt_or (cget corr_step) (step n)) in
  let alter := opt_or (cget corr_alter) (alter n) in
  let octave := opt_or (cget corr_octave) (octave n) in
  let noteType := opt_or (cget corr_noteType) (noteType n) in
  let status := match corr with Some c => corr_status c | None => status n end in
  let octDown := match nth_error parts partIdx with
                 | Some p => jseq (octaveChange (clef p)) (Num (-1))
                 | None => false
                 end in
  let displayOctave := if (partIdx <? 2)%nat && octDown then jadd octave (Num 1) else octave in
  let color := match status with
               | Verified | Corrected => "#16a34a"%string
               | Unreviewed => if conf_ge (confidence n) threshold then "#2563eb"%string
                               else "#dc2626"%string
               end in
  mkVexView step displayOctave alter noteType color.


(** The calibration keeps equal scales within the scale slider's range and
    a note scale within the note-size slider's range. *)
Definition scales_ok (cal : CalibrationState) : Prop :=
  exists s k, scaleX cal = Num s /\ scaleY cal = Num s /\ (1 # 2 <= s <= 2)%Q /\
              noteScale cal = Num k /\ (2 # 5 <= k <= 2)%Q.

(** Where [parseScore] puts a note it pushes: on the staff of its part in
    the system of its measure, at the offset of its pitch. *)
Definition parsed_placement (n : NoteData) : Prop :=
  isRest n = false /\ status n = Unreviewed /\
  systemIndex n = SYS_OF_MEASURE (measureIndex n) /\
  absY n = jadd (staffTopOf (systemIndex n) (partIndex n))
                (pitchToYOffset (step n) (octave n) (jnat (partIndex n))).

(* ========================================================================= *)
(** * Theorems *)

(** C1: for a nonzero scale, inverse calibration undoes calibration. *)
Theorem calib_roundtrip (raw scale offset : Q) (Hs : ~ (scale == 0)%Q) :
  jeqv (inverseCalib (applyCalib (Num raw) (Num scale) (Num offset)) (Num scale) (Num offset))
       (Num raw).
Proof.
  unfold inverseCalib, applyCalib, jdiv, jsub, jadd, jmul, jeqv.
  destruct (Qeq_bool scale 0) eqn:E.
  - apply Qeq_bool_iff in E. contradiction.
  - field. exact Hs.
Qed.

Lemma calib_roundtrip_witness :
  ~ (2 == 0)%Q /\
  jeqv (inverseCalib (applyCalib (Num 7) (Num 2) (Num 3)) (Num 2) (Num 3)) (Num 7).
Proof.
  split.
  - discriminate.
  - apply (calib_roundtrip 7 2 3). discriminate.
Defined.

(** C2: for a step among C..B with index [k] and an integer octave, the
    offset is [130 - 5p] for part index 2 and [155 - 5p] for every other part
    index (in particular 0 and 1), where [p = 7 * octave + k]. *)
Theorem pitchToYOffset_affine (k : nat) (step : string) (octave : Z)
  (Hk : nth_error STEPS k = Some step) :
  let p := (7 * octave + Z.of_nat k)%Z in
  jeqv (pitchToYOffset step (jZ octave) (Num 2)) (jZ (130 - 5 * p)) /\
  jeqv (pitchToYOffset step (jZ octave) (Num 0)) (jZ (155 - 5 * p)) /\
  jeqv (pitchToYOffset step (jZ octave) (Num 1)) (jZ (155 - 5 * p)) /\
  (forall partIndex : Q,
     jeqv (pitchToYOffset step (jZ octave) (Num partIndex))
          (jZ (if Qeq_bool partIndex 2 then 130 - 5 * p else 155 - 5 * p))).
Proof.
  assert (Hstep : STEP_NUM step = Some (Z.of_nat k) /\ (k < 7)%nat).
  { do 7 (destruct k as [|k]; [injection Hk as <-; split; [reflexivity | lia] |]).
    destruct k; discriminate. }
  destruct Hstep as [Hs _].
  intro p.
  assert (Hgen : forall partIndex : Q,
     jeqv (pitchToYOffset step (jZ octave) (Num partIndex))
          (jZ (if Qeq_bool partIndex 2 then 130 - 5 * p else 155 - 5 * p))).
  { intro pi. unfold pitchToYOffset. rewrite Hs. unfold jseq.
    destruct (Qeq_bool pi 2); unfold jZ, jadd, jmul, jsub, jeqv, p;
      unfold Z.sub; repeat rewrite ?inject_Z_plus, ?inject_Z_opp, ?inject_Z_mult; ring. }
  split; [exact (Hgen 2) | split; [exact (Hgen 0) | split; [exact (Hgen 1) | exact Hgen]]].
Qed.

Lemma pitchToYOffset_affine_witness :
  nth_error STEPS 4 = Some "G"%string /\
  jeqv (pitchToYOffset "G" (jZ 3) (Num 2)) (jZ (130 - 5 * (7 * 3 + 4))).
Proof.
  split; [reflexivity |].
  exact (proj1 (pitchToYOffset_affine 4 "G" 3 eq_refl)).
Defined.

(** C3: for [0 <= i < 8] the start of measure [i] is the left margin plus
    the widths of the earlier measures of its own system; measure 4 starts
    at the left margin, not after the four widths of system 0. *)
Theorem measureStartX_within_system :
  (forall i, (i < 8)%nat -> measureStartX i = measure_start_spec i) /\
  measureStartX 4 = (LEFT_MARGIN + 0)%Z /\
  measureStartX 4 <> (LEFT_MARGIN + fold_right Z.add 0%Z (firstn 4 MEASURE_WIDTHS))%Z.
Proof.
  split; [| split; [reflexivity | cbv; discriminate]].
  intros i Hi.
  do 8 (destruct i as [|i]; [reflexivity |]).
  lia.
Qed.

(* ------------------------------------------------------------------------- *)
(** ** Comparisons of JavaScript numbers *)

Lemma Qle_bool_true (a b : Q) : (a <= b)%Q -> Qle_bool a b = true.
Proof. apply Qle_bool_iff. Qed.

Lemma Qle_bool_false (a b : Q) : (b < a)%Q -> Qle_bool a b = false.
Proof.
  intro H. destruct (Qle_bool a b) eqn:E; [| reflexivity].
  apply Qle_bool_iff in E. lra.
Qed.

Lemma jlt_Num (a b : Q) : jlt (Num a) (Num b) = true <-> (a < b)%Q.
Proof.
  simpl. destruct (Qle_bool b a) eqn:E; simpl.
  - apply Qle_bool_iff in E. split; [discriminate | intro; lra].
  - split; [intros _ | reflexivity].
    apply Qnot_le_lt. intro H. apply Qle_bool_iff in H. congruence.
Qed.

Lemma jle_Num (a b : Q) : jle (Num a) (Num b) = true <-> (a <= b)%Q.
Proof. apply Qle_bool_iff. Qed.

Lemma jlt_Num_inv (a b : jsnum) :
  jlt a b = true -> exists x y, a = Num x /\ b = Num y /\ (x < y)%Q.
Proof.
  destruct a as [x|], b as [y|]; try discriminate.
  intro H. exists x, y. split; [reflexivity | split; [reflexivity |]].
  apply jlt_Num. exact H.
Qed.

Lemma jlt_trans (a b c : jsnum) : jlt a b = true -> jlt b c = true -> jlt a c = true.
Proof.
  intros H1 H2.
  destruct (jlt_Num_inv _ _ H1) as (x & y & -> & -> & Hxy).
  destruct (jlt_Num_inv _ _ H2) as (y' & z & Hy & -> & Hyz).
  injection Hy as <-. apply jlt_Num. lra.
Qed.

(** If [n < n0] and [m] is not below [n0] while [m] is a finite number, then
    [n < m]. *)
Lemma jlt_not_below (n n0 m bd : jsnum) :
  jlt n n0 = true -> jlt m n0 = false -> jlt m bd = true -> jlt n m = true.
Proof.
  intros H1 H2 H3.
  destruct (jlt_Num_inv _ _ H1) as (x & y & -> & -> & Hxy).
  destruct (jlt_Num_inv _ _ H3) as (u & v & -> & -> & _).
  apply jlt_Num.
  assert (Hyu : (y <= u)%Q).
  { apply Qnot_lt_le. intro Hlt. apply jlt_Num in Hlt. congruence. }
  lra.
Qed.

(* ------------------------------------------------------------------------- *)
(** ** Hit-test *)

Section HitTest.
Variables sx sy rawPx rawPy : jsnum.
Let D := note_d2 sx sy rawPx rawPy.

Lemma findNoteAt_loop_spec (l : list NoteData) :
  forall best bd,
  match findNoteAt_loop sx sy rawPx rawPy best bd l with
  | Some n =>
      (best = Some n /\
       forall m, In m l -> isRest m = false -> jlt (D m) bd = false) \/
      (exists pre post, l = pre ++ n :: post /\ isRest n = false /\
         jlt (D n) bd = true /\
         (forall m, In m pre -> isRest m = false -> jlt (D m) bd = true ->
                    jlt (D n) (D m) = true) /\
         (forall m, In m post -> isRest m = false -> jlt (D m) (D n) = false))
  | None => best = None /\ forall m, In m l -> isRest m = false -> jlt (D m) bd = false
  end.
Proof.
  induction l as [|n0 t IH]; intros best bd; simpl.
  - destruct best as [n|].
    + left. split; [reflexivity | intros m []].
    + split; [reflexivity | intros m []].
  - destruct (isRest n0) eqn:Er.
    + specialize (IH best bd).
      destruct (findNoteAt_loop sx sy rawPx rawPy best bd t) as [n|].
      * destruct IH as [[Hb Hno] | (pre & post & Ht & Hr & Hlt & Hpre & Hpost)].
        -- left. split; [exact Hb |].
           intros m [<- | Hm] Hm'; [congruence | exact (Hno m Hm Hm')].
        -- right. exists (n0 :: pre), post. subst t.
           split; [reflexivity | split; [exact Hr | split; [exact Hlt | split; [| exact Hpost]]]].
           intros m [<- | Hm] Hm'; [congruence | exact (Hpre m Hm Hm')].
      * destruct IH as [Hb Hno]. split; [exact Hb |].
        intros m [<- | Hm] Hm'; [congruence | exact (Hno m Hm Hm')].
    + fold D. destruct (jlt (D n0) bd) eqn:Ed.
      * specialize (IH (Some n0) (D n0)).
        destruct (findNoteAt_loop sx sy rawPx rawPy (Some n0) (D n0) t) as [n|].
        -- right.
           destruct IH as [[Hb Hno] | (pre & post & Ht & Hr & Hlt & Hpre & Hpost)].
           ++ injection Hb as <-. exists [], t.
              split; [reflexivity | split; [exact Er | split; [exact Ed | split]]].
              ** intros m [].
              ** exact Hno.
           ++ exists (n0 :: pre), post. subst t.
              split; [reflexivity | split; [exact Hr | split]].
              ** exact (jlt_trans _ _ _ Hlt Ed).
              ** split; [| exact Hpost].
                 intros m [<- | Hm] Hm' Hmb; [exact Hlt |].
                 destruct (jlt (D m) (D n0)) eqn:Emn.
                 --- exact (Hpre m Hm Hm' Emn).
                 --- exact (jlt_not_below _ _ _ _ Hlt Emn Hmb).
        -- destruct IH as [Hb _]. discriminate.
      * specialize (IH best bd).
        destruct (findNoteAt_loop sx sy rawPx rawPy best bd t) as [n|].
        -- destruct IH as [[Hb Hno] | (pre & post & Ht & Hr & Hlt & Hpre & Hpost)].
           ++ left. split; [exact Hb |].
              intros m [<- | Hm] Hm'; [exact Ed | exact (Hno m Hm Hm')].
           ++ right. exists (n0 :: pre), post. subst t.
              split; [reflexivity | split; [exact Hr | split; [exact Hlt | split; [| exact Hpost]]]].
              intros m [<- | Hm] Hm' Hmb; [congruence | exact (Hpre m Hm Hm' Hmb)].
        -- destruct IH as [Hb Hno]. split; [exact Hb |].
           intros m [<- | Hm] Hm'; [exact Ed | exact (Hno m Hm Hm')].
Qed.
End HitTest.

(** C4 (amended): [findNoteAt] inverse-calibrates the query point, and
    returns the first non-rest note, in list order, whose squared raw-space
    distance is strictly below [radius * radius] and strictly below that of
    every earlier note within the radius, with no later note strictly
    closer; the radius is compared as given, in raw (pre-calibration) space.
    It returns [None] when no non-rest note is strictly within the radius. *)
Theorem findNoteAt_first_nearest (notes : list NoteData) (px py canvasW canvasH : jsnum)
  (cal : CalibrationState) (radius : jsnum) :
  let sx := jdiv canvasW (Num PAGE_W) in
  let sy := jdiv canvasH (Num PAGE_H) in
  let rawPx := inverseCalib px (scaleX cal) (offsetX cal) in
  let rawPy := inverseCalib py (scaleY cal) (offsetY cal) in
  let D := note_d2 sx sy rawPx rawPy in
  let r2 := jmul radius radius in
  match findNoteAt notes px py canvasW canvasH cal radius with
  | Some n =>
      exists pre post, notes = pre ++ n :: post /\ isRest n = false /\
        jlt (D n) r2 = true /\
        (forall m, In m pre -> isRest m = false -> jlt (D m) r2 = true -> jlt (D n) (D m) = true) /\
        (forall m, In m post -> isRest m = false -> jlt (D m) (D n) = false)
  | None => forall m, In m notes -> isRest m = false -> jlt (D m) r2 = false
  end.
Proof.
  intros sx sy rawPx rawPy D r2. unfold findNoteAt.
  pose proof (findNoteAt_loop_spec sx sy rawPx rawPy notes None r2) as H.
  fold sx sy rawPx rawPy r2.
  destruct (findNoteAt_loop sx sy rawPx rawPy None r2 notes) as [n|].
  - destruct H as [[Hb _] | H]; [discriminate | exact H].
  - destruct H as [_ H]. exact H.
Qed.

(** C4 (counterexample): with both scales 2, a query 30 canvas pixels away
    from a note's canvas position still hits it with the default radius of
    18, since 30 pixels are 15 raw units. *)
Lemma findNoteAt_radius_not_converted :
  let cal := mkCalib (Num 0) (Num 0) (Num 2) (Num 2) (Num 1) in
  let n0 := sample_note 0 0 0 0 in
  let cx := applyCalib (jmul (absX n0) (jdiv page_canvas_W (Num PAGE_W))) (scaleX cal) (offsetX cal) in
  let cy := applyCalib (jmul (absY n0) (jdiv page_canvas_H (Num PAGE_H))) (scaleY cal) (offsetY cal) in
  findNoteAt [n0] (Num 30) (Num 0) page_canvas_W page_canvas_H cal (Num 18) = Some n0 /\
  jeqv (jadd (jmul (jsub cx (Num 30)) (jsub cx (Num 30))) (jmul (jsub cy (Num 0)) (jsub cy (Num 0))))
       (Num 900) /\
  jlt (jmul (Num 18) (Num 18)) (Num 900) = true.
Proof.
  split; [reflexivity | split; [reflexivity | reflexivity]].
Qed.

(* ------------------------------------------------------------------------- *)
(** ** Renderer: head centres and radii *)

Lemma head_centres_app (a b : list cmd) :
  head_centres (a ++ b) = head_centres a ++ head_centres b.
Proof. induction a as [|c a IH]; [reflexivity |]. destruct c; simpl; rewrite ?IH; reflexivity. Qed.

Lemma head_radii_app (a b : list cmd) :
  head_radii (a ++ b) = head_radii a ++ head_radii b.
Proof. induction a as [|c a IH]; [reflexivity |]. destruct c; simpl; rewrite ?IH; reflexivity. Qed.

Lemma ledger_above_no_head (f : nat) (cx w lim st ly : jsnum) :
  head_centres (ledger_above f cx w lim st ly) = [] /\
  head_radii (ledger_above f cx w lim st ly) = [].
Proof.
  revert ly. induction f as [|f IH]; intro ly; simpl; [split; reflexivity |].
  destruct (jle lim ly); simpl; [apply IH | split; reflexivity].
Qed.

Lemma ledger_below_no_head (f : nat) (cx w lim st ly : jsnum) :
  head_centres (ledger_below f cx w lim st ly) = [] /\
  head_radii (ledger_below f cx w lim st ly) = [].
Proof.
  revert ly. induction f as [|f IH]; intro ly; simpl; [split; reflexivity |].
  destruct (jle ly lim); simpl; [apply IH | split; reflexivity].
Qed.

Lemma drawLedgerLines_no_head (cx cy t b ls rx : jsnum) (c : string) :
  head_centres (drawLedgerLines cx cy t b ls rx c) = [] /\
  head_radii (drawLedgerLines cx cy t b ls rx c) = [].
Proof.
  unfold drawLedgerLines.
  rewrite !head_centres_app, !head_radii_app.
  destruct (jlt cy _); destruct (jlt _ cy);
    repeat match goal with
    | |- context [ledger_above ?f ?a ?b ?c ?d ?e] =>
        destruct (ledger_above_no_head f a b c d e) as [-> ->]
    | |- context [ledger_below ?f ?a ?b ?c ?d ?e] =>
        destruct (ledger_below_no_head f a b c d e) as [-> ->]
    end; split; reflexivity.
Qed.

Lemma drawFlags_no_head (tx ty : jsnum) (sd : StemDir) (n : nat) (rx ry : jsnum) (c : string) :
  head_centres (drawFlags tx ty sd n rx ry c) = [] /\
  head_radii (drawFlags tx ty sd n rx ry c) = [].
Proof.
  unfold drawFlags. destruct sd, n; try (split; reflexivity);
  cbn [app head_centres head_radii];
  (split; induction (seq 0 (S n)) as [|k l IH]; [reflexivity | | reflexivity |];
   cbn [flat_map]; rewrite ?head_centres_app, ?head_radii_app; rewrite IH; reflexivity).
Qed.

Lemma drawNote_heads (sx sy : jsnum) (cal : CalibrationState) (S : Symbols) (th : jsnum)
  (note : NoteData) :
  head_centres (drawNote sx sy cal S th note) =
    (if isRest note then []
     else [(applyCalib (jmul (absX note) sx) (scaleX cal) (offsetX cal),
            applyCalib (jmul (absY note) sy) (scaleY cal) (offsetY cal))]) /\
  head_radii (drawNote sx sy cal S th note) =
    (if isRest note then [] else [(sym_rx S, sym_ry S)]).
Proof.
  unfold drawNote. destruct (isRest note); [split; reflexivity |].
  set (cx := applyCalib (jmul (absX note) sx) (scaleX cal) (offsetX cal)).
  set (cy := applyCalib (jmul (absY note) sy) (scaleY cal) (offsetY cal)).
  destruct (drawStem cx cy (sym_rx S) (stemDir note) (sym_stemLen S) (noteColor note th))
    as [stemCmds [tx ty]] eqn:Estem.
  assert (Hstem : head_centres stemCmds = [] /\ head_radii stemCmds = []).
  { unfold drawStem in Estem. destruct (stemDir note); injection Estem as <- _ _;
      split; reflexivity. }
  rewrite !head_centres_app, !head_radii_app.
  destruct (drawLedgerLines_no_head cx cy
              (applyCalib (jmul (jZ (rawStaffTopOf (SYS_OF_MEASURE (measureIndex note)) (partIndex note))) sy)
                 (scaleY cal) (offsetY cal))
              (applyCalib
                 (jmul (jadd (jZ (rawStaffTopOf (SYS_OF_MEASURE (measureIndex note)) (partIndex note)))
                          (Num STAFF_H_TENTHS)) sy) (scaleY cal) (offsetY cal))
              (jmul (sym_lineSpacing S) (Num 2)) (sym_rx S) (noteColor note th)) as [-> ->].
  destruct Hstem as [-> ->].
  assert (Hacc : head_centres (drawAccidental cx cy (alter note) (sym_ry S) (noteColor note th)) = [] /\
                 head_radii (drawAccidental cx cy (alter note) (sym_ry S) (noteColor note th)) = []).
  { unfold drawAccidental. destruct (jseq (alter note) (Num 0)); split; reflexivity. }
  destruct Hacc as [-> ->].
  assert (Hfl : forall b : bool, head_centres (if b then drawFlags tx ty (stemDir note)
                     (flagsForType (noteType note)) (sym_rx S) (sym_ry S) (noteColor note th) else []) = [] /\
                   head_radii (if b then drawFlags tx ty (stemDir note)
                     (flagsForType (noteType note)) (sym_rx S) (sym_ry S) (noteColor note th) else []) = []).
  { intros []; [apply drawFlags_no_head | split; reflexivity]. }
  destruct (Hfl (0 <? flagsForType (noteType note))%nat) as [-> ->].
  unfold drawHead.
  destruct (match noteType note with NT Whole | NT Half => true | _ => false end);
    split; reflexivity.
Qed.

Lemma head_centres_flat_map {A} (f : A -> list cmd) (l : list A) :
  head_centres (flat_map f l) = flat_map (fun a => head_centres (f a)) l.
Proof. induction l as [|a l IH]; [reflexivity |]. simpl. rewrite head_centres_app, IH. reflexivity. Qed.

Lemma head_radii_flat_map {A} (f : A -> list cmd) (l : list A) :
  head_radii (flat_map f l) = flat_map (fun a => head_radii (f a)) l.
Proof. induction l as [|a l IH]; [reflexivity |]. simpl. rewrite head_radii_app, IH. reflexivity. Qed.

Lemma ledger_ys_line_app (cx w y : jsnum) (l : list cmd) :
  ledger_ys (ledgerLine cx w y ++ l) = y :: ledger_ys l.
Proof. reflexivity. Qed.

Lemma ledger_ys_above_app (f : nat) (cx w lim st ly : jsnum) (l : list cmd) :
  ledger_ys (ledger_above f cx w lim st ly ++ l) =
  ledger_ys (ledger_above f cx w lim st ly) ++ ledger_ys l.
Proof.
  revert ly. induction f as [|f IH]; intro ly; [reflexivity |].
  cbn [ledger_above]. destruct (jle lim ly); [| reflexivity].
  rewrite <- app_assoc, !ledger_ys_line_app, IH. reflexivity.
Qed.

Lemma strokes_ledger_above_app (f : nat) (cx w lim st ly : jsnum) (l : list cmd) :
  stem_segments (ledger_above f cx w lim st ly ++ l) = stem_segments l /\
  ledger_lines (ledger_above f cx w lim st ly ++ l) =
    ledger_ys (ledger_above f cx w lim st ly) ++ ledger_lines l.
Proof.
  revert ly. induction f as [|f IH]; intro ly; [split; reflexivity |].
  cbn [ledger_above]. destruct (jle lim ly); [| split; reflexivity].
  rewrite <- app_assoc. destruct (IH (jsub ly st)) as [H1 H2].
  split; [exact H1 |]. unfold ledgerLine. cbn [app ledger_lines ledger_ys]. rewrite H2. reflexivity.
Qed.

Lemma strokes_ledger_below_app (f : nat) (cx w lim st ly : jsnum) (l : list cmd) :
  stem_segments (ledger_below f cx w lim st ly ++ l) = stem_segments l /\
  ledger_lines (ledger_below f cx w lim st ly ++ l) =
    ledger_ys (ledger_below f cx w lim st ly) ++ ledger_lines l.
Proof.
  revert ly. induction f as [|f IH]; intro ly; [split; reflexivity |].
  cbn [ledger_below]. destruct (jle ly lim); [| split; reflexivity].
  rewrite <- app_assoc. destruct (IH (jadd ly st)) as [H1 H2].
  split; [exact H1 |]. unfold ledgerLine. cbn [app ledger_lines ledger_ys]. rewrite H2. reflexivity.
Qed.

Lemma ledger_ys_below_app (f : nat) (cx w lim st ly : jsnum) (l : list cmd) :
  ledger_ys (ledger_below f cx w lim st ly ++ l) =
  ledger_ys (ledger_below f cx w lim st ly) ++ ledger_ys l.
Proof.
  revert ly. induction f as [|f IH]; intro ly; [reflexivity |].
  cbn [ledger_below]. destruct (jle ly lim); [| reflexivity].
  rewrite <- app_assoc. unfold ledgerLine. cbn [app ledger_ys]. rewrite IH. reflexivity.
Qed.

Lemma strokes_drawLedgerLines_app (cx cy t b ls rx : jsnum) (c : string) (l : list cmd) :
  stem_segments (drawLedgerLines cx cy t b ls rx c ++ l) = stem_segments l /\
  ledger_lines (drawLedgerLines cx cy t b ls rx c ++ l) =
    ledger_ys (drawLedgerLines cx cy t b ls rx c) ++ ledger_lines l.
Proof.
  unfold drawLedgerLines. cbv zeta. rewrite <- !app_assoc. cbn [app].
  change (stem_segments (SetStrokeStyle c :: SetLineWidth (jmax (Num 1) (jmul rx (Num 0.2))) :: ?x))
    with (stem_segments x).
  change (ledger_lines (SetStrokeStyle c :: SetLineWidth (jmax (Num 1) (jmul rx (Num 0.2))) :: ?x))
    with (ledger_lines x).
  change (ledger_ys (SetStrokeStyle c :: SetLineWidth (jmax (Num 1) (jmul rx (Num 0.2))) :: ?x))
    with (ledger_ys x).
  match goal with
  | |- context [if ?b1 then ledger_above ?f1 ?a1 ?a2 ?a3 ?a4 ?a5 else []] =>
      destruct b1;
      [destruct (strokes_ledger_above_app f1 a1 a2 a3 a4 a5
                   ((if jlt (jadd b (jmul ls (Num 0.4))) cy
                     then ledger_below (ledger_fuel (jsub (Num 0) (jadd b ls))
                            (jsub (Num 0) (jadd cy (jmul ls (Num 0.4)))) ls)
                            cx (jmul rx (Num 2.4)) (jadd cy (jmul ls (Num 0.4))) ls (jadd b ls)
                     else []) ++ l)) as [-> ->];
       rewrite ledger_ys_above_app, <- app_assoc | cbn [app]]
  end;
  (destruct (jlt (jadd b (jmul ls (Num 0.4))) cy);
   [destruct (strokes_ledger_below_app (ledger_fuel (jsub (Num 0) (jadd b ls))
                 (jsub (Num 0) (jadd cy (jmul ls (Num 0.4)))) ls)
                 cx (jmul rx (Num 2.4)) (jadd cy (jmul ls (Num 0.4))) ls (jadd b ls) l) as [-> ->];
    rewrite ?app_nil_r; split; reflexivity
   | rewrite ?app_nil_r; split; reflexivity]).
Qed.

Lemma strokes_flat_map_app {A : Type} (g : A -> list cmd) (xs : list A) (l : list cmd) :
  (forall a l', stem_segments (g a ++ l') = stem_segments l' /\ ledger_lines (g a ++ l') = ledger_lines l') ->
  stem_segments (flat_map g xs ++ l) = stem_segments l /\ ledger_lines (flat_map g xs ++ l) = ledger_lines l.
Proof.
  intro Hg. induction xs as [|a xs IH]; [split; reflexivity |].
  cbn [flat_map]. rewrite <- app_assoc. destruct (Hg a (flat_map g xs ++ l)) as [-> ->]. exact IH.
Qed.

Lemma strokes_drawFlags_app (tx ty : jsnum) (sd : StemDir) (k : nat) (rx ry : jsnum) (c : string)
  (l : list cmd) :
  stem_segments (drawFlags tx ty sd k rx ry c ++ l) = stem_segments l /\
  ledger_lines (drawFlags tx ty sd k rx ry c ++ l) = ledger_lines l.
Proof.
  unfold drawFlags. destruct sd, k as [|k]; try (split; reflexivity);
    rewrite <- app_assoc; cbn [app];
    (change (stem_segments (SetStrokeStyle c :: SetLineWidth (jmax (Num 1.2) (jmul rx (Num 0.2))) :: ?x))
       with (stem_segments x);
     change (ledger_lines (SetStrokeStyle c :: SetLineWidth (jmax (Num 1.2) (jmul rx (Num 0.2))) :: ?x))
       with (ledger_lines x);
     apply strokes_flat_map_app; intros; split; reflexivity).
Qed.

(** The stem and the ledger lines that [drawNote] strokes for one note. *)
Lemma strokes_drawNote_app (sx sy : jsnum) (cal : CalibrationState) (S : Symbols) (th : jsnum)
  (note : NoteData) (l : list cmd) :
  let cx := applyCalib (jmul (absX note) sx) (scaleX cal) (offsetX cal) in
  let cy := applyCalib (jmul (absY note) sy) (scaleY cal) (offsetY cal) in
  let rawTop := jZ (rawStaffTopOf (SYS_OF_MEASURE (measureIndex note)) (partIndex note)) in
  let top := applyCalib (jmul rawTop sy) (scaleY cal) (offsetY cal) in
  let bottom := applyCalib (jmul (jadd rawTop (Num STAFF_H_TENTHS)) sy) (scaleY cal) (offsetY cal) in
  stem_segments (drawNote sx sy cal S th note ++ l) =
    (if isRest note then []
     else match stemDir note with
          | StemUp => [(cy, jsub cy (sym_stemLen S))]
          | StemDown => [(cy, jadd cy (sym_stemLen S))]
          | StemNone => []
          end) ++ stem_segments l /\
  ledger_lines (drawNote sx sy cal S th note ++ l) =
    (if isRest note then []
     else ledger_ys (drawLedgerLines cx cy top bottom (jmul (sym_lineSpacing S) (Num 2)) (sym_rx S)
                       (noteColor note th))) ++ ledger_lines l.
Proof.
  cbv zeta. unfold drawNote. destruct (isRest note); [split; reflexivity |].
  set (cx := applyCalib (jmul (absX note) sx) (scaleX cal) (offsetX cal)).
  set (cy := applyCalib (jmul (absY note) sy) (scaleY cal) (offsetY cal)).
  destruct (drawStem cx cy (sym_rx S) (stemDir note) (sym_stemLen S) (noteColor note th))
    as [stemCmds [tx ty]] eqn:Estem.
  assert (Hstem : forall l',
    stem_segments (stemCmds ++ l') =
      match stemDir note with
      | StemUp => [(cy, jsub cy (sym_stemLen S))]
      | StemDown => [(cy, jadd cy (sym_stemLen S))]
      | StemNone => []
      end ++ stem_segments l' /\
    ledger_lines (stemCmds ++ l') = ledger_lines l').
  { unfold drawStem in Estem. intro l'.
    destruct (stemDir note); injection Estem as <- _ _; split; reflexivity. }
  assert (Hacc : forall l',
    stem_segments (drawAccidental cx cy (alter note) (sym_ry S) (noteColor note th) ++ l') = stem_segments l' /\
    ledger_lines (drawAccidental cx cy (alter note) (sym_ry S) (noteColor note th) ++ l') = ledger_lines l').
  { intro l'. unfold drawAccidental. destruct (jseq (alter note) (Num 0)); split; reflexivity. }
  assert (Hhead : forall o l',
    stem_segments (drawHead cx cy (sym_rx S) (sym_ry S) (noteColor note th) o ++ l') = stem_segments l' /\
    ledger_lines (drawHead cx cy (sym_rx S) (sym_ry S) (noteColor note th) o ++ l') = ledger_lines l').
  { intros [] l'; split; reflexivity. }
  assert (Hfl : forall (b : bool) l',
    stem_segments ((if b then drawFlags tx ty (stemDir note) (flagsForType (noteType note))
                                (sym_rx S) (sym_ry S) (noteColor note th) else []) ++ l') = stem_segments l' /\
    ledger_lines ((if b then drawFlags tx ty (stemDir note) (flagsForType (noteType note))
                               (sym_rx S) (sym_ry S) (noteColor note th) else []) ++ l') = ledger_lines l').
  { intros [] l'; [apply strokes_drawFlags_app | split; reflexivity]. }
  rewrite <- !app_assoc.
  rewrite (proj1 (strokes_drawLedgerLines_app _ _ _ _ _ _ _ _)),
          (proj2 (strokes_drawLedgerLines_app _ _ _ _ _ _ _ _)).
  rewrite (proj1 (Hacc _)), (proj2 (Hacc _)), (proj1 (Hhead _ _)), (proj2 (Hhead _ _)).
  rewrite (proj1 (Hstem _)), (proj2 (Hstem _)), (proj1 (Hfl _ _)), (proj2 (Hfl _ _)).
  split; reflexivity.
Qed.

(** C5 (amended): the canvas head centres drawn do not depend on
    [noteScale]. With [staffPx = 40 * sy * noteScale]:
    - the head radii are [max(3.5, 0.22 staffPx)] and [max(2.5, 0.13 staffPx)];
    - the stem of each note with a stem runs from its centre [cy], up or down,
      over a length of [max(12, 0.88 staffPx)];
    - the ledger lines of each note are those [drawLedgerLines] draws with
      the interval [2 * max(2, 0.25 staffPx)].
    So these sizes follow [noteScale] proportionally only above their
    floors (3.5, 2.5, 12, and 4 for the ledger interval). *)
Theorem drawAllNotes_noteScale (notes : list NoteData) (threshold canvasW canvasH : jsnum)
  (cal : CalibrationState) (ns1 ns2 : jsnum) :
  head_centres (drawAllNotes notes threshold canvasW canvasH (withNoteScale cal ns1)) =
  head_centres (drawAllNotes notes threshold canvasW canvasH (withNoteScale cal ns2)) /\
  head_radii (drawAllNotes notes threshold canvasW canvasH cal) =
  map (fun _ =>
         let staffPx := jmul (jmul (Num 40) (jdiv canvasH (Num PAGE_H))) (noteScale cal) in
         (jmax (Num 3.5) (jmul staffPx (Num 0.22)), jmax (Num 2.5) (jmul staffPx (Num 0.13))))
      (filter (fun n => negb (isRest n)) notes) /\
  stem_segments (drawAllNotes notes threshold canvasW canvasH cal) =
  flat_map (fun n =>
      let sy := jdiv canvasH (Num PAGE_H) in
      let staffPx := jmul (jmul (Num 40) sy) (noteScale cal) in
      let stemLen := jmax (Num 12) (jmul staffPx (Num 0.88)) in
      let cy := applyCalib (jmul (absY n) sy) (scaleY cal) (offsetY cal) in
      if isRest n then []
      else match stemDir n with
           | StemUp => [(cy, jsub cy stemLen)]
           | StemDown => [(cy, jadd cy stemLen)]
           | StemNone => []
           end) notes /\
  ledger_lines (drawAllNotes notes threshold canvasW canvasH cal) =
  flat_map (fun n =>
      let sx := jdiv canvasW (Num PAGE_W) in
      let sy := jdiv canvasH (Num PAGE_H) in
      let staffPx := jmul (jmul (Num 40) sy) (noteScale cal) in
      let rx := jmax (Num 3.5) (jmul staffPx (Num 0.22)) in
      let interval := jmul (jmax (Num 2) (jmul staffPx (Num 0.25))) (Num 2) in
      let cx := applyCalib (jmul (absX n) sx) (scaleX cal) (offsetX cal) in
      let cy := applyCalib (jmul (absY n) sy) (scaleY cal) (offsetY cal) in
      let rawTop := jZ (rawStaffTopOf (SYS_OF_MEASURE (measureIndex n)) (partIndex n)) in
      let top := applyCalib (jmul rawTop sy) (scaleY cal) (offsetY cal) in
      let bottom := applyCalib (jmul (jadd rawTop (Num 40)) sy) (scaleY cal) (offsetY cal) in
      if isRest n then []
      else ledger_ys (drawLedgerLines cx cy top bottom interval rx (noteColor n threshold))) notes.
Proof.
  assert (Hstrokes :
    forall l, stem_segments (flat_map (drawNote (jdiv canvasW (Num PAGE_W)) (jdiv canvasH (Num PAGE_H)) cal
                   (symbols (jdiv canvasH (Num PAGE_H)) (noteScale cal)) threshold) notes ++ l) =
      flat_map (fun n =>
        let sy := jdiv canvasH (Num PAGE_H) in
        let staffPx := jmul (jmul (Num 40) sy) (noteScale cal) in
        let stemLen := jmax (Num 12) (jmul staffPx (Num 0.88)) in
        let cy := applyCalib (jmul (absY n) sy) (scaleY cal) (offsetY cal) in
        if isRest n then []
        else match stemDir n with
             | StemUp => [(cy, jsub cy stemLen)]
             | StemDown => [(cy, jadd cy stemLen)]
             | StemNone => []
             end) notes ++ stem_segments l /\
    ledger_lines (flat_map (drawNote (jdiv canvasW (Num PAGE_W)) (jdiv canvasH (Num PAGE_H)) cal
                   (symbols (jdiv canvasH (Num PAGE_H)) (noteScale cal)) threshold) notes ++ l) =
      flat_map (fun n =>
        let sx := jdiv canvasW (Num PAGE_W) in
        let sy := jdiv canvasH (Num PAGE_H) in
        let staffPx := jmul (jmul (Num 40) sy) (noteScale cal) in
        let rx := jmax (Num 3.5) (jmul staffPx (Num 0.22)) in
        let interval := jmul (jmax (Num 2) (jmul staffPx (Num 0.25))) (Num 2) in
        let cx := applyCalib (jmul (absX n) sx) (scaleX cal) (offsetX cal) in
        let cy := applyCalib (jmul (absY n) sy) (scaleY cal) (offsetY cal) in
        let rawTop := jZ (rawStaffTopOf (SYS_OF_MEASURE (measureIndex n)) (partIndex n)) in
        let top := applyCalib (jmul rawTop sy) (scaleY cal) (offsetY cal) in
        let bottom := applyCalib (jmul (jadd rawTop (Num 40)) sy) (scaleY cal) (offsetY cal) in
        if isRest n then []
        else ledger_ys (drawLedgerLines cx cy top bottom interval rx (noteColor n threshold))) notes
        ++ ledger_lines l).
  { intro l. induction notes as [|n ns IH]; [split; reflexivity |].
    cbn [flat_map]. rewrite <- !app_assoc.
    destruct (strokes_drawNote_app (jdiv canvasW (Num PAGE_W)) (jdiv canvasH (Num PAGE_H)) cal
                (symbols (jdiv canvasH (Num PAGE_H)) (noteScale cal)) threshold n
                (flat_map (drawNote (jdiv canvasW (Num PAGE_W)) (jdiv canvasH (Num PAGE_H)) cal
                   (symbols (jdiv canvasH (Num PAGE_H)) (noteScale cal)) threshold) ns ++ l))
      as [E1 E2].
    rewrite E1, E2. destruct IH as [-> ->]. split; reflexivity. }
  split; [| split; [| split]].
  3: { unfold drawAllNotes. cbv zeta.
       change (stem_segments (ClearRect (Num 0) (Num 0) canvasW canvasH :: ?x)) with (stem_segments x).
       rewrite <- (app_nil_r (flat_map _ notes)). rewrite (proj1 (Hstrokes [])). apply app_nil_r. }
  3: { unfold drawAllNotes. cbv zeta.
       change (ledger_lines (ClearRect (Num 0) (Num 0) canvasW canvasH :: ?x)) with (ledger_lines x).
       rewrite <- (app_nil_r (flat_map _ notes)). rewrite (proj2 (Hstrokes [])). apply app_nil_r. }
  - clear Hstrokes. unfold drawAllNotes. cbn [head_centres].
    rewrite !head_centres_flat_map.
    induction notes as [|n l IH]; [reflexivity |].
    cbn [flat_map]. rewrite IH.
    destruct (drawNote_heads (jdiv canvasW (Num PAGE_W)) (jdiv canvasH (Num PAGE_H))
                (withNoteScale cal ns1) (symbols (jdiv canvasH (Num PAGE_H)) (noteScale (withNoteScale cal ns1)))
                threshold n) as [-> _].
    destruct (drawNote_heads (jdiv canvasW (Num PAGE_W)) (jdiv canvasH (Num PAGE_H))
                (withNoteScale cal ns2) (symbols (jdiv canvasH (Num PAGE_H)) (noteScale (withNoteScale cal ns2)))
                threshold n) as [-> _].
    reflexivity.
  - clear Hstrokes. unfold drawAllNotes. cbn [head_radii].
    rewrite !head_radii_flat_map.
    induction notes as [|n l IH]; [reflexivity |].
    cbn [flat_map filter].
    destruct (drawNote_heads (jdiv canvasW (Num PAGE_W)) (jdiv canvasH (Num PAGE_H))
                cal (symbols (jdiv canvasH (Num PAGE_H)) (noteScale cal)) threshold n) as [_ ->].
    destruct (isRest n); simpl; rewrite IH; reflexivity.
Qed.

(** C5 (counterexample): on a canvas of half the page's size, note scales
    0.4 and 0.7 (slider values 40 and 70, both within the slider's range)
    give the same head radii (the floors 3.5 and 2.5), not radii in the
    ratio 4 : 7. *)
Lemma drawAllNotes_radii_floor :
  let n0 := sample_note 100 300 0 0 in
  head_radii (drawAllNotes [n0] (Num 0) (Num 683) (Num 961)
                (withNoteScale DEFAULT_CALIBRATION (Num 0.4))) = [(Num 3.5, Num 2.5)] /\
  head_radii (drawAllNotes [n0] (Num 0) (Num 683) (Num 961)
                (withNoteScale DEFAULT_CALIBRATION (Num 0.7))) = [(Num 3.5, Num 2.5)] /\
  ~ jeqv (Num 3.5) (jmul (Num (7 # 4)) (Num 3.5)).
Proof.
  split; [reflexivity | split; [reflexivity |]].
  unfold jeqv, jmul. intro H. unfold Qeq in H. simpl in H. discriminate.
Qed.

(* ------------------------------------------------------------------------- *)
(** ** Renderer: ledger lines *)

Lemma ledger_ys_prefix (c : string) (w : jsnum) (l : list cmd) :
  ledger_ys ([SetStrokeStyle c; SetLineWidth w] ++ l) = ledger_ys l.
Proof. reflexivity. Qed.

Lemma ledger_above_bounds (cx w : jsnum) (lim s : Q) (Hs : (0 <= s)%Q) (f : nat) :
  forall ly y, In y (ledger_ys (ledger_above f cx w (Num lim) (Num s) (Num ly))) ->
  exists q, y = Num q /\ (lim <= q <= ly)%Q.
Proof.
  induction f as [|f IH]; intros ly y Hy; [destruct Hy |].
  cbn [ledger_above] in Hy. destruct (jle (Num lim) (Num ly)) eqn:E; [| destruct Hy].
  apply jle_Num in E.
  rewrite ledger_ys_line_app in Hy. destruct Hy as [<- | Hy].
  - exists ly. split; [reflexivity | lra].
  - destruct (IH (ly - s)%Q y Hy) as (q & -> & Hq).
    exists q. split; [reflexivity | lra].
Qed.

Lemma ledger_below_bounds (cx w : jsnum) (lim s : Q) (Hs : (0 <= s)%Q) (f : nat) :
  forall ly y, In y (ledger_ys (ledger_below f cx w (Num lim) (Num s) (Num ly))) ->
  exists q, y = Num q /\ (ly <= q <= lim)%Q.
Proof.
  induction f as [|f IH]; intros ly y Hy; [destruct Hy |].
  cbn [ledger_below] in Hy. destruct (jle (Num ly) (Num lim)) eqn:E; [| destruct Hy].
  apply jle_Num in E.
  rewrite ledger_ys_line_app in Hy. destruct Hy as [<- | Hy].
  - exists ly. split; [reflexivity | lra].
  - destruct (IH (ly + s)%Q y Hy) as (q & -> & Hq).
    exists q. split; [reflexivity | lra].
Qed.

Lemma jlt_Num_false (a b : Q) : (b <= a)%Q -> jlt (Num a) (Num b) = false.
Proof. intro H. cbn [jlt]. rewrite Qle_bool_true by exact H. reflexivity. Qed.

Lemma jlt_Num_true (a b : Q) : (a < b)%Q -> jlt (Num a) (Num b) = true.
Proof. intro H. apply jlt_Num. exact H. Qed.

Lemma Qfloor_minus_one (x : Q) : Qfloor (x - 1) = (Qfloor x - 1)%Z.
Proof.
  pose proof (Qfloor_le x) as H1. pose proof (Qlt_floor x) as H2.
  pose proof (Qfloor_le (x - 1)) as H3. pose proof (Qlt_floor (x - 1)) as H4.
  rewrite inject_Z_plus in H2, H4. change (inject_Z 1) with 1%Q in H2, H4.
  assert (Ha : (inject_Z (Qfloor (x - 1)) < inject_Z (Qfloor x))%Q) by lra.
  assert (Hb : (inject_Z (Qfloor x) < inject_Z (Qfloor (x - 1) + 2))%Q).
  { rewrite inject_Z_plus. change (inject_Z 2) with 2%Q. lra. }
  rewrite <- Zlt_Qlt in Ha, Hb. lia.
Qed.

Lemma Qfloor_below_one (x : Q) : (x < 1)%Q -> Z.to_nat (Qfloor x) = O.
Proof.
  intro H. pose proof (Qfloor_le x) as H1.
  assert (H2 : (inject_Z (Qfloor x) < inject_Z 1)%Q) by (change (inject_Z 1) with 1%Q; lra).
  rewrite <- Zlt_Qlt in H2. lia.
Qed.

Lemma Qfloor_nonneg (x : Q) : (0 <= x)%Q -> (0 <= Qfloor x)%Z.
Proof. intro H. apply Qfloor_resp_le in H. exact H. Qed.

Lemma Qfloor_neg (x : Q) : (x < 0)%Q -> (Qfloor x < 0)%Z.
Proof.
  intro H. pose proof (Qfloor_le x) as H1.
  assert (H2 : (inject_Z (Qfloor x) < inject_Z 0)%Q) by (change (inject_Z 0) with 0%Q; lra).
  rewrite <- Zlt_Qlt in H2. exact H2.
Qed.

Lemma jeqv_trans (a b c : jsnum) : jeqv a b -> jeqv b c -> jeqv a c.
Proof.
  destruct a as [x|], b as [y|], c as [z|]; cbn [jeqv]; try tauto.
  intros H1 H2. rewrite H1. exact H2.
Qed.

Lemma Forall2_jeqv_trans (a b c : list jsnum) :
  Forall2 jeqv a b -> Forall2 jeqv b c -> Forall2 jeqv a c.
Proof.
  intros H. revert c. induction H as [|x y a b Hxy _ IH]; intros c Hc; inversion Hc; subst;
    constructor; [eapply jeqv_trans; eassumption | apply IH; assumption].
Qed.

Lemma Forall2_jeqv_map {A : Type} (f g : A -> jsnum) (l : list A) :
  (forall x, jeqv (f x) (g x)) -> Forall2 jeqv (map f l) (map g l).
Proof. intro H. induction l as [|x l IH]; constructor; auto. Qed.

Lemma inject_Z_succ (j : nat) : (inject_Z (Z.of_nat (S j)) == inject_Z (Z.of_nat j) + 1)%Q.
Proof. rewrite Nat2Z.inj_succ, <- Z.add_1_r, inject_Z_plus. reflexivity. Qed.

(** The lines of [while (ly >= lim) { line(ly); ly -= step }] with enough
    passes: [ly], [ly - step], ... as long as they stay at or above [lim]. *)
Lemma ledger_above_exact (cx w : jsnum) (lim s : Q) (Hs : (0 < s)%Q) (f : nat) :
  forall ly, (Z.to_nat (Qfloor ((ly - lim) / s) + 1) <= f)%nat ->
  Forall2 jeqv (ledger_ys (ledger_above f cx w (Num lim) (Num s) (Num ly)))
    (map (fun j => Num (ly - inject_Z (Z.of_nat j) * s)) (seq 0 (Z.to_nat (Qfloor ((ly - lim) / s) + 1)))).
Proof.
  induction f as [|f IH]; intros ly Hf.
  - replace (Z.to_nat (Qfloor ((ly - lim) / s) + 1)) with O by lia. constructor.
  - cbn [ledger_above]. destruct (jle (Num lim) (Num ly)) eqn:E.
    + apply jle_Num in E.
      assert (Hk : (0 <= Qfloor ((ly - lim) / s))%Z).
      { apply Qfloor_nonneg. apply Qle_shift_div_l; [exact Hs | lra]. }
      assert (Hn : Qfloor ((ly - s - lim) / s) = (Qfloor ((ly - lim) / s) - 1)%Z).
      { rewrite <- Qfloor_minus_one. apply Qfloor_comp. field. intro H0. lra. }
      replace (Z.to_nat (Qfloor ((ly - lim) / s) + 1))
        with (S (Z.to_nat (Qfloor ((ly - s - lim) / s) + 1))) by (rewrite Hn; lia).
      rewrite ledger_ys_line_app. cbn [seq map]. constructor.
      * cbn [jeqv]. change (inject_Z (Z.of_nat 0)) with 0%Q. ring.
      * cbn [jsub]. eapply Forall2_jeqv_trans; [apply IH; rewrite Hn; lia |].
        rewrite <- seq_shift, map_map. apply Forall2_jeqv_map. intro j. cbn [jeqv].
        rewrite inject_Z_succ. ring.
    + assert (Hlt : (ly < lim)%Q).
      { apply Qnot_le_lt. intro Hle. apply jle_Num in Hle. congruence. }
      assert (Hk : (Qfloor ((ly - lim) / s) < 0)%Z).
      { apply Qfloor_neg. apply Qlt_shift_div_r; [exact Hs | lra]. }
      replace (Z.to_nat (Qfloor ((ly - lim) / s) + 1)) with O by lia. constructor.
Qed.

(** The lines of [while (ly <= lim) { line(ly); ly += step }] with enough
    passes: [ly], [ly + step], ... as long as they stay at or below [lim]. *)
Lemma ledger_below_exact (cx w : jsnum) (lim s : Q) (Hs : (0 < s)%Q) (f : nat) :
  forall ly, (Z.to_nat (Qfloor ((lim - ly) / s) + 1) <= f)%nat ->
  Forall2 jeqv (ledger_ys (ledger_below f cx w (Num lim) (Num s) (Num ly)))
    (map (fun j => Num (ly + inject_Z (Z.of_nat j) * s)) (seq 0 (Z.to_nat (Qfloor ((lim - ly) / s) + 1)))).
Proof.
  induction f as [|f IH]; intros ly Hf.
  - replace (Z.to_nat (Qfloor ((lim - ly) / s) + 1)) with O by lia. constructor.
  - cbn [ledger_below]. destruct (jle (Num ly) (Num lim)) eqn:E.
    + apply jle_Num in E.
      assert (Hk : (0 <= Qfloor ((lim - ly) / s))%Z).
      { apply Qfloor_nonneg. apply Qle_shift_div_l; [exact Hs | lra]. }
      assert (Hn : Qfloor ((lim - (ly + s)) / s) = (Qfloor ((lim - ly) / s) - 1)%Z).
      { rewrite <- Qfloor_minus_one. apply Qfloor_comp. field. intro H0. lra. }
      replace (Z.to_nat (Qfloor ((lim - ly) / s) + 1))
        with (S (Z.to_nat (Qfloor ((lim - (ly + s)) / s) + 1))) by (rewrite Hn; lia).
      rewrite ledger_ys_line_app. cbn [seq map]. constructor.
      * cbn [jeqv]. change (inject_Z (Z.of_nat 0)) with 0%Q. ring.
      * cbn [jadd]. eapply Forall2_jeqv_trans; [apply IH; rewrite Hn; lia |].
        rewrite <- seq_shift, map_map. apply Forall2_jeqv_map. intro j. cbn [jeqv].
        rewrite inject_Z_succ. ring.
    + assert (Hlt : (lim < ly)%Q).
      { apply Qnot_le_lt. intro Hle. apply jle_Num in Hle. congruence. }
      assert (Hk : (Qfloor ((lim - ly) / s) < 0)%Z).
      { apply Qfloor_neg. apply Qlt_shift_div_r; [exact Hs | lra]. }
      replace (Z.to_nat (Qfloor ((lim - ly) / s) + 1)) with O by lia. constructor.
Qed.

(** The ledger lines [drawLedgerLines] draws above the staff:
    [top - ls], [top - 2 ls], ... as long as they are at or below
    [cy - 0.4 ls] on the page. *)
Lemma ledger_lines_above (cx w : jsnum) (top cy ls : Q) (Hls : (0 < ls)%Q) :
  Forall2 jeqv
    (ledger_ys (if jlt (Num cy) (jsub (Num top) (jmul (Num ls) (Num 0.4)))
                then ledger_above (ledger_fuel (jsub (Num top) (Num ls))
                                     (jsub (Num cy) (jmul (Num ls) (Num 0.4))) (Num ls))
                       cx w (jsub (Num cy) (jmul (Num ls) (Num 0.4))) (Num ls) (jsub (Num top) (Num ls))
                else []))
    (map (fun j => Num (top - inject_Z (Z.of_nat j) * ls))
       (seq 1 (Z.to_nat (Qfloor ((top - cy) / ls + (2 # 5)))))).
Proof.
  cbn [jsub jmul]. destruct (jlt (Num cy) (Num (top - ls * 0.4))) eqn:E.
  - apply jlt_Num in E.
    assert (Hc : Qfloor ((top - ls - (cy - ls * 0.4)) / ls) = (Qfloor ((top - cy) / ls + (2 # 5)) - 1)%Z).
    { rewrite <- Qfloor_minus_one. apply Qfloor_comp. field. intro H0. lra. }
    assert (Hk : (0 <= Qfloor ((top - ls - (cy - ls * 0.4)) / ls) + 1)%Z).
    { rewrite Hc. assert (0 <= Qfloor ((top - cy) / ls + (2 # 5)))%Z; [| lia].
      apply Qfloor_nonneg.
      assert (0 <= (top - cy) / ls)%Q by (apply Qle_shift_div_l; [exact Hls | lra]). lra. }
    eapply Forall2_jeqv_trans.
    + apply ledger_above_exact; [exact Hls |].
      cbn [ledger_fuel]. rewrite Qle_bool_false by exact Hls. lia.
    + rewrite Hc. replace (Qfloor ((top - cy) / ls + (2 # 5)) - 1 + 1)%Z
        with (Qfloor ((top - cy) / ls + (2 # 5))) by ring.
      rewrite <- seq_shift, map_map. apply Forall2_jeqv_map. intro j. cbn [jeqv].
      rewrite inject_Z_succ. ring.
  - assert (Hge : (top - ls * 0.4 <= cy)%Q).
    { apply Qnot_lt_le. intro Hlt. apply jlt_Num in Hlt. congruence. }
    rewrite Qfloor_below_one; [constructor |].
    assert ((top - cy) / ls <= 2 # 5)%Q by (apply Qle_shift_div_r; [exact Hls | lra]). lra.
Qed.

(** The ledger lines [drawLedgerLines] draws below the staff:
    [bottom + ls], [bottom + 2 ls], ... as long as they are at or above
    [cy + 0.4 ls] on the page. *)
Lemma ledger_lines_below (cx w : jsnum) (bottom cy ls : Q) (Hls : (0 < ls)%Q) :
  Forall2 jeqv
    (ledger_ys (if jlt (jadd (Num bottom) (jmul (Num ls) (Num 0.4))) (Num cy)
                then ledger_below (ledger_fuel (jsub (Num 0) (jadd (Num bottom) (Num ls)))
                                     (jsub (Num 0) (jadd (Num cy) (jmul (Num ls) (Num 0.4)))) (Num ls))
                       cx w (jadd (Num cy) (jmul (Num ls) (Num 0.4))) (Num ls) (jadd (Num bottom) (Num ls))
                else []))
    (map (fun j => Num (bottom + inject_Z (Z.of_nat j) * ls))
       (seq 1 (Z.to_nat (Qfloor ((cy - bottom) / ls + (2 # 5)))))).
Proof.
  cbn [jsub jmul jadd]. destruct (jlt (Num (bottom + ls * 0.4)) (Num cy)) eqn:E.
  - apply jlt_Num in E.
    assert (Hc : Qfloor ((cy + ls * 0.4 - (bottom + ls)) / ls) = (Qfloor ((cy - bottom) / ls + (2 # 5)) - 1)%Z).
    { rewrite <- Qfloor_minus_one. apply Qfloor_comp. field. intro H0. lra. }
    assert (Hf : Qfloor ((0 - (bottom + ls) - (0 - (cy + ls * 0.4))) / ls) =
                 Qfloor ((cy + ls * 0.4 - (bottom + ls)) / ls)).
    { apply Qfloor_comp. field. intro H0. lra. }
    assert (Hk : (0 <= Qfloor ((cy + ls * 0.4 - (bottom + ls)) / ls) + 1)%Z).
    { rewrite Hc. assert (0 <= Qfloor ((cy - bottom) / ls + (2 # 5)))%Z; [| lia].
      apply Qfloor_nonneg.
      assert (0 <= (cy - bottom) / ls)%Q by (apply Qle_shift_div_l; [exact Hls | lra]). lra. }
    eapply Forall2_jeqv_trans.
    + apply ledger_below_exact; [exact Hls |].
      cbn [ledger_fuel]. rewrite Qle_bool_false by exact Hls. rewrite Hf. lia.
    + rewrite Hc. replace (Qfloor ((cy - bottom) / ls + (2 # 5)) - 1 + 1)%Z
        with (Qfloor ((cy - bottom) / ls + (2 # 5))) by ring.
      rewrite <- seq_shift, map_map. apply Forall2_jeqv_map. intro j. cbn [jeqv].
      rewrite inject_Z_succ. ring.
  - assert (Hge : (cy <= bottom + ls * 0.4)%Q).
    { apply Qnot_lt_le. intro Hlt. apply jlt_Num in Hlt. congruence. }
    rewrite Qfloor_below_one; [constructor |].
    assert ((cy - bottom) / ls <= 2 # 5)%Q by (apply Qle_shift_div_r; [exact Hls | lra]). lra.
Qed.

Lemma ledger_ys_if_above_app (b : bool) (f : nat) (cx w lim st ly : jsnum) (l : list cmd) :
  ledger_ys ((if b then ledger_above f cx w lim st ly else []) ++ l) =
  ledger_ys (if b then ledger_above f cx w lim st ly else []) ++ ledger_ys l.
Proof. destruct b; [apply ledger_ys_above_app | reflexivity]. Qed.

(** C6 (amended): with a positive interval [ls] (the routine's
    [lineSpacing] argument) and [top <= bottom]: a note centred inside the
    staff gets no ledger line; a note 1.5 intervals above the top (below the
    bottom) gets exactly one, one interval beyond that boundary; every
    ledger line lies either between [cy - 0.4 ls] and [top - ls] or between
    [bottom + ls] and [cy + 0.4 ls]; and the lines drawn are exactly, in
    order, [top - ls], [top - 2 ls], ..., [top - k ls] for every [k >= 1]
    with [top - k ls >= cy - 0.4 ls], then [bottom + ls], [bottom + 2 ls],
    ..., [bottom + k ls] for every [k >= 1] with [bottom + k ls <= cy + 0.4 ls]
    (their numbers are [floor ((top - cy) / ls + 0.4)] and
    [floor ((cy - bottom) / ls + 0.4)], or none when these are negative). *)
Theorem drawLedgerLines_geometry (cx top bottom ls rx : Q) (color : string)
  (Hls : (0 < ls)%Q) (Htb : (top <= bottom)%Q) :
  (forall cy, (top <= cy <= bottom)%Q ->
     ledger_ys (drawLedgerLines (Num cx) (Num cy) (Num top) (Num bottom) (Num ls) (Num rx) color) = []) /\
  ledger_ys (drawLedgerLines (Num cx) (Num (top - (3#2) * ls)) (Num top) (Num bottom) (Num ls) (Num rx) color)
    = [Num (top - ls)] /\
  ledger_ys (drawLedgerLines (Num cx) (Num (bottom + (3#2) * ls)) (Num top) (Num bottom) (Num ls) (Num rx) color)
    = [Num (bottom + ls)] /\
  (forall cy y,
     In y (ledger_ys (drawLedgerLines (Num cx) (Num cy) (Num top) (Num bottom) (Num ls) (Num rx) color)) ->
     exists q, y = Num q /\
       ((cy - ls * 0.4 <= q <= top - ls)%Q \/ (bottom + ls <= q <= cy + ls * 0.4)%Q)) /\
  (forall cy,
     Forall2 jeqv
       (ledger_ys (drawLedgerLines (Num cx) (Num cy) (Num top) (Num bottom) (Num ls) (Num rx) color))
       (map (fun k => Num (top - inject_Z (Z.of_nat k) * ls))
          (seq 1 (Z.to_nat (Qfloor ((top - cy) / ls + (2 # 5))))) ++
        map (fun k => Num (bottom + inject_Z (Z.of_nat k) * ls))
          (seq 1 (Z.to_nat (Qfloor ((cy - bottom) / ls + (2 # 5))))))).
Proof.
  assert (Hexact : forall cy,
     Forall2 jeqv
       (ledger_ys (drawLedgerLines (Num cx) (Num cy) (Num top) (Num bottom) (Num ls) (Num rx) color))
       (map (fun k => Num (top - inject_Z (Z.of_nat k) * ls))
          (seq 1 (Z.to_nat (Qfloor ((top - cy) / ls + (2 # 5))))) ++
        map (fun k => Num (bottom + inject_Z (Z.of_nat k) * ls))
          (seq 1 (Z.to_nat (Qfloor ((cy - bottom) / ls + (2 # 5))))))).
  { intro cy. unfold drawLedgerLines. cbv zeta.
    rewrite ledger_ys_prefix, ledger_ys_if_above_app.
    apply Forall2_app; [apply ledger_lines_above | apply ledger_lines_below]; exact Hls. }
  assert (Hfuel : forall a b, ((a - b) / ls == 9 # 10)%Q -> ledger_fuel (Num a) (Num b) (Num ls) = 1%nat).
  { intros a b Hab. cbn [ledger_fuel]. rewrite Qle_bool_false by exact Hls.
    rewrite Hab. reflexivity. }
  split; [| split; [| split; [| split; [| exact Hexact]]]]; unfold drawLedgerLines; cbn [jmul jsub jadd].
  - intros cy Hcy.
    rewrite jlt_Num_false by lra. rewrite jlt_Num_false by lra. reflexivity.
  - rewrite jlt_Num_true by lra. rewrite jlt_Num_false by lra.
    rewrite Hfuel by (field; intro; lra).
    rewrite app_nil_r, ledger_ys_prefix. cbn [ledger_above].
    rewrite (proj2 (jle_Num _ _)) by lra. reflexivity.
  - rewrite jlt_Num_false by lra. rewrite jlt_Num_true by lra.
    rewrite Hfuel by (field; intro; lra).
    rewrite ledger_ys_prefix. cbn [app ledger_below].
    rewrite (proj2 (jle_Num _ _)) by lra. reflexivity.
  - intros cy y Hy. rewrite ledger_ys_prefix in Hy.
    destruct (jlt (Num cy) (Num (top - ls * 0.4))) eqn:Ea.
    + rewrite ledger_ys_above_app in Hy. apply in_app_or in Hy.
      destruct Hy as [Hy | Hy].
      * destruct (ledger_above_bounds _ _ _ _ (Qlt_le_weak _ _ Hls) _ _ _ Hy) as (q & -> & Hq).
        exists q. split; [reflexivity | left; lra].
      * destruct (jlt (Num (bottom + ls * 0.4)) (Num cy)); [| destruct Hy].
        destruct (ledger_below_bounds _ _ _ _ (Qlt_le_weak _ _ Hls) _ _ _ Hy) as (q & -> & Hq).
        exists q. split; [reflexivity | right; lra].
    + cbn [app] in Hy.
      destruct (jlt (Num (bottom + ls * 0.4)) (Num cy)); [| destruct Hy].
      destruct (ledger_below_bounds _ _ _ _ (Qlt_le_weak _ _ Hls) _ _ _ Hy) as (q & -> & Hq).
      exists q. split; [reflexivity | right; lra].
Qed.

Lemma drawLedgerLines_geometry_witness :
  (0 < 20)%Q /\ (100 <= 140)%Q /\
  ledger_ys (drawLedgerLines (Num 0) (Num (100 - (3#2) * 20)) (Num 100) (Num 140) (Num 20) (Num 4) "#000")
    = [Num (100 - 20)].
Proof.
  split; [lra | split; [lra |]].
  exact (proj1 (proj2 (drawLedgerLines_geometry 0 100 140 20 4 "#000" ltac:(lra) ltac:(lra)))).
Defined.

(** The pass count [ledger_fuel] never cuts the loop short: once the fuel
    exceeds [floor ((ly - lim) / step)] the loop has already stopped on its
    own condition, so more fuel gives the same lines. *)
Lemma ledger_above_fuel_stable (cx w : jsnum) (b s : Q) (Hs : (0 < s)%Q) (n : nat) :
  forall a, (Qfloor ((a - b) / s) < Z.of_nat n)%Z ->
  forall m, ledger_above (n + m) cx w (Num b) (Num s) (Num a) =
            ledger_above n cx w (Num b) (Num s) (Num a).
Proof.
  induction n as [|n IH]; intros a Ha m.
  - assert (Hab : (a < b)%Q).
    { apply Qnot_le_lt. intro Hle.
      assert (H0 : (0 <= (a - b) / s)%Q).
      { apply Qle_shift_div_l; [exact Hs | lra]. }
      apply Qfloor_resp_le in H0. change (Qfloor 0) with 0%Z in H0.
      change (Z.of_nat 0) with 0%Z in Ha. lia. }
    destruct m as [|m]; [reflexivity |].
    cbn [Nat.add ledger_above].
    assert (E : jle (Num b) (Num a) = false).
    { apply Bool.not_true_iff_false. intro H. apply jle_Num in H. lra. }
    rewrite E. reflexivity.
  - cbn [Nat.add ledger_above]. destruct (jle (Num b) (Num a)); [| reflexivity].
    f_equal. cbn [jsub]. apply IH.
    assert (Heq : ((a - s - b) / s == (a - b) / s - 1)%Q) by (field; intro; lra).
    rewrite Heq. set (x := ((a - b) / s)%Q) in *.
    pose proof (Qfloor_le (x - 1)) as H1.
    pose proof (Qlt_floor x) as H2.
    assert (H3 : (inject_Z (Qfloor (x - 1)) < inject_Z (Qfloor x))%Q).
    { rewrite inject_Z_plus in H2. change (inject_Z 1) with 1%Q in H2.
      set (u := inject_Z (Qfloor (x - 1))) in *. set (v := inject_Z (Qfloor x)) in *. lra. }
    rewrite <- Zlt_Qlt in H3. lia.
Qed.

Lemma ledger_fuel_enough (cx w : jsnum) (a b s : Q) (Hs : (0 < s)%Q) (m : nat) :
  ledger_above (ledger_fuel (Num a) (Num b) (Num s) + m) cx w (Num b) (Num s) (Num a) =
  ledger_above (ledger_fuel (Num a) (Num b) (Num s)) cx w (Num b) (Num s) (Num a).
Proof.
  apply ledger_above_fuel_stable; [exact Hs |].
  cbn [ledger_fuel]. rewrite Qle_bool_false by exact Hs.
  destruct (Qfloor ((a - b) / s)) eqn:E; simpl; lia.
Qed.

(** C6 (counterexample): on a canvas of the page's size with the default
    calibration, the renderer's ledger interval is 20 pixels and the staff
    of part 0, system 0 starts at 333; a note at height 303, 1.5 intervals
    above it, gets one ledger line, not two. *)
Lemma drawAllNotes_one_ledger_line :
  jeqv (jmul (sym_lineSpacing (symbols (jdiv page_canvas_H (Num PAGE_H)) (Num 1))) (Num 2)) (Num 20) /\
  rawStaffTopOf 0 0 = 333%Z /\
  (303 == 333 - (3#2) * 20)%Q /\
  length (ledger_ys (drawAllNotes [sample_note 100 303 0 0] (Num 0) page_canvas_W page_canvas_H
                       DEFAULT_CALIBRATION)) = 1%nat.
Proof.
  split; [reflexivity | split; [reflexivity | split; [reflexivity | reflexivity]]].
Qed.

Lemma js_pow_unit (r e : R) : (0 <= r < 1)%R -> (0 < e)%R -> (0 <= js_pow r e < 1)%R.
Proof.
  intros Hr He. unfold js_pow. destruct (Rle_dec r 0) as [Hle | Hgt].
  - Lra.lra.
  - unfold Rpower. split.
    + left; apply exp_pos.
    + rewrite <- exp_0. apply exp_increasing.
      assert (Hl : (ln r < 0)%R) by (rewrite <- ln_1; apply ln_increasing; Lra.lra).
      rewrite <- (Rmult_0_r e). apply Rmult_lt_compat_l; assumption.
Qed.

(** C7: the mock confidence of a note is a function of its part, measure
    and note indices only: with [x] the scaled sine of the seed and [r] its
    fractional part [x - floor x], which lies in [[0, 1)], the confidence is
    [0.52 + 0.48 * r^0.55], hence lies in [[0.52, 1)]. *)
Theorem mockConfidence_range (partIdx measureIdx noteIdx : nat) :
  let seed := (INR partIdx * 1000 + INR measureIdx * 100 + INR noteIdx)%R in
  let x := (sin (seed * 127.1 + 311.7) * 43758.5453123)%R in
  let r := (x - js_floor x)%R in
  (0 <= r < 1)%R /\
  mockConfidence partIdx measureIdx noteIdx = (0.52 + 0.48 * js_pow r 0.55)%R /\
  (0.52 <= mockConfidence partIdx measureIdx noteIdx < 1)%R.
Proof.
  intros seed x r.
  assert (Hr : (0 <= r < 1)%R).
  { unfold r, js_floor. destruct (base_Int_part x). Lra.lra. }
  assert (Hc : mockConfidence partIdx measureIdx noteIdx = (0.52 + 0.48 * js_pow r 0.55)%R)
    by reflexivity.
  assert (Hp : (0 <= js_pow r 0.55 < 1)%R) by (apply js_pow_unit; [exact Hr | Lra.lra]).
  split; [exact Hr | split; [exact Hc | rewrite Hc; Lra.lra]].
Qed.

(* ------------------------------------------------------------------------- *)
(** ** Facts about the parser *)

Open Scope string_scope.


Lemma bind_Ok_inv {A B : Type} (m : res A) (k : A -> res B) (b : B) :
  bind m k = Ok b -> exists a, m = Ok a /\ k a = Ok b.
Proof. destruct m as [a | e]; simpl; [eauto | discriminate]. Qed.

Lemma own_in (k : string) (fs : list (string * val)) (w : val) :
  own k fs = Some w -> In w (map snd fs).
Proof.
  induction fs as [| [k' v] t IH]; simpl; [discriminate |].
  destruct (own k t) as [w' |] eqn:E.
  - intros Hw. injection Hw as <-. right. apply IH. reflexivity.
  - destruct (String.eqb k k'); [intros Hw; injection Hw as <-; left; reflexivity | discriminate].
Qed.

Lemma no_own_getp (v : val) (k : string) :
  no_own_toString v = true -> no_own_toString (getp v k) = true.
Proof.
  destruct v as [| | b | n | s | items | fs]; simpl; try reflexivity.
  intros H. apply andb_prop in H as [_ H].
  destruct (own k fs) as [w |] eqn:E; [| reflexivity].
  apply own_in in E. rewrite forallb_forall in H.
  apply in_map_iff in E as [[k' x] [Hx Hin]]. simpl in Hx; subst x.
  apply (H _ Hin).
Qed.

Lemma no_own_coalesce (a b : val) :
  no_own_toString a = true -> no_own_toString b = true ->
  no_own_toString (coalesce a b) = true.
Proof. unfold coalesce; destruct (nullish a); auto. Qed.

Lemma no_own_toArray (v : val) :
  no_own_toString v = true -> forallb no_own_toString (toArray v) = true.
Proof.
  intros H. destruct v; simpl toArray; try reflexivity;
    try (cbn [forallb]; rewrite H; reflexivity); exact H.
Qed.

Lemma no_own_at_index (l : list val) (i : nat) :
  forallb no_own_toString l = true -> no_own_toString (at_index l i) = true.
Proof.
  intros H. unfold at_index. destruct (nth_error l i) eqn:E; [| reflexivity].
  rewrite forallb_forall in H. apply H. eapply nth_error_In; eauto.
Qed.

Lemma get_Ok (v : val) (k : string) (w : val) : get v k = Ok w -> w = getp v k.
Proof. destruct v; simpl; intros H; try discriminate; injection H; auto. Qed.

Lemma get_not_nullish (v : val) (k : string) :
  nullish v = false -> get v k = Ok (getp v k).
Proof. destruct v; simpl; intros H; try discriminate; reflexivity. Qed.

Create HintDb shapes.
#[local] Hint Resolve no_own_getp no_own_coalesce no_own_at_index no_own_toArray : shapes.
#[local] Hint Extern 1 (no_own_toString (VNum _) = true) => reflexivity : shapes.
#[local] Hint Extern 1 (no_own_toString (VStr _) = true) => reflexivity : shapes.
#[local] Hint Extern 1 (no_own_toString (VObj []) = true) => reflexivity : shapes.

Lemma uint_digits_all (d : Decimal.uint) : all_digits (uint_digits d) = true.
Proof. induction d; simpl; auto. Qed.

Lemma uint_digits_inj (d1 d2 : Decimal.uint) : uint_digits d1 = uint_digits d2 -> d1 = d2.
Proof.
  revert d2; induction d1; intros [] H; simpl in H; try discriminate;
    try reflexivity; injection H as H; f_equal; auto.
Qed.

Lemma N_to_decimal_inj (a b : N) : N_to_decimal a = N_to_decimal b -> a = b.
Proof.
  unfold N_to_decimal. intros H. apply uint_digits_inj in H.
  rewrite <- (DecimalN.Unsigned.of_to a), <- (DecimalN.Unsigned.of_to b), H.
  reflexivity.
Qed.

Lemma digits_dash_split (d1 d2 r1 r2 : string) :
  all_digits d1 = true -> all_digits d2 = true ->
  append d1 (String "-" r1) = append d2 (String "-" r2) -> d1 = d2 /\ r1 = r2.
Proof.
  revert d2. induction d1 as [| c d1 IH]; intros [| c' d2] H1 H2 E; simpl in E.
  - injection E as E. auto.
  - injection E as <- _. discriminate H2.
  - injection E as -> _. discriminate H1.
  - injection E as <- E. simpl in H1, H2.
    apply andb_prop in H1 as [_ H1]. apply andb_prop in H2 as [_ H2].
    destruct (IH d2 H1 H2 E) as [-> ->]. auto.
Qed.

Lemma no_dash_in_digits (d y z : string) :
  all_digits d = true -> d <> append y (String "-" z).
Proof.
  revert d. induction y as [| c y IH]; intros [| c' d] H E; simpl in E; try discriminate.
  - injection E as -> _. discriminate H.
  - injection E as <- E. simpl in H. apply andb_prop in H as [_ H]. exact (IH d H E).
Qed.

Lemma suffix_split (x1 x2 d1 d2 : string) :
  all_digits d1 = true -> all_digits d2 = true ->
  append x1 (String "-" (String "n" d1)) = append x2 (String "-" (String "n" d2)) ->
  x1 = x2 /\ d1 = d2.
Proof.
  revert x2. induction x1 as [| c x1 IH]; intros [| c' x2] H1 H2 E; simpl in E.
  - injection E as E. auto.
  - injection E as <- E. destruct x2 as [| c'' x2]; simpl in E; [discriminate |].
    injection E as <- E. exfalso. exact (no_dash_in_digits _ _ _ H1 E).
  - injection E as -> E. destruct x1 as [| c'' x1]; simpl in E; [discriminate |].
    injection E as -> E. exfalso. exact (no_dash_in_digits _ _ _ H2 (eq_sym E)).
  - injection E as <- E. destruct (IH x2 H1 H2 E) as [-> ->]. auto.
Qed.

Lemma NoDup_app_intro {A : Type} (a b : list A) :
  NoDup a -> NoDup b -> (forall x, In x a -> ~ In x b) -> NoDup (a ++ b).
Proof.
  induction a as [| x a IH]; simpl; intros Ha Hb Hd; [exact Hb |].
  inversion Ha as [| ? ? Hx Ha']; subst. constructor.
  - rewrite in_app_iff. intros [H | H]; [exact (Hx H) | exact (Hd x (or_introl eq_refl) H)].
  - apply IH; auto.
Qed.

Ltac bind_ok lem :=
  let a := fresh "a" in
  let E := fresh "E" in
  destruct lem as [a E]; rewrite E; cbn [bind].

(** Take apart a hypothesis [bind m k = Ok b]. *)
Ltac peel H :=
  repeat match type of H with
  | bind _ _ = Ok _ =>
      let a := fresh "a" in
      let Ea := fresh "Ea" in
      apply bind_Ok_inv in H; destruct H as [a [Ea H]]; cbv beta zeta in H
  | (let _ := _ in _) = _ => cbv zeta in H
  end.

Ltac peel_as H x Ex :=
  apply bind_Ok_inv in H; destruct H as [x [Ex H]]; cbv beta zeta in H.

Section ParserFacts.
Variable str_to_num : string -> jsnum.
Variable fmt_fraction : Q -> string.

Lemma num_to_string_jnat (n : nat) :
  num_to_string fmt_fraction (jnat n) = N_to_decimal (N.of_nat n).
Proof.
  unfold num_to_string, jnat, inject_Z. cbn [Qnum Qden].
  rewrite Z.mod_1_r, Z.div_1_r. destruct n; reflexivity.
Qed.

Lemma mk_note_id_inj (i i' k k' : nat) (s s' : string) :
  mk_note_id fmt_fraction i s k = mk_note_id fmt_fraction i' s' k' ->
  i = i' /\ s = s' /\ k = k'.
Proof.
  unfold mk_note_id. rewrite !num_to_string_jnat. simpl. intros E.
  injection E as E.
  apply digits_dash_split in E as [Ei E]; try apply uint_digits_all.
  injection E as E.
  apply suffix_split in E as [Es Ek]; try apply uint_digits_all.
  apply N_to_decimal_inj, Nat2N.inj in Ei. apply N_to_decimal_inj, Nat2N.inj in Ek.
  auto.
Qed.

Lemma js_String_ok (v : val) :
  no_own_toString v = true -> exists s, js_String fmt_fraction v = Ok s.
Proof.
  induction v as [| | b | n | s | items IH | fs _] using val_ind2; intros H;
    try (eexists; reflexivity).
  - simpl in H |- *.
    match goal with |- exists s, ?F items ?e = Ok s =>
      enough (G : forall sep, exists s, F items sep = Ok s) by apply G end.
    induction items as [| x t IHt]; intros sep; [eexists; reflexivity |].
    simpl in H. apply andb_prop in H as [Hx Ht].
    inversion IH as [| ? ? IHx IHl]; subst.
    destruct (IHt IHl Ht ",") as [r Er].
    assert (Sx : exists s, match x with VUndef | VNull => Ok EmptyString
                                 | _ => js_String fmt_fraction x end = Ok s).
    { destruct x; try (eexists; reflexivity); apply IHx; exact Hx. }
    destruct Sx as [sx Ex].
    simpl. rewrite Ex. simpl. rewrite Er. simpl. eexists; reflexivity.
  - simpl in H |- *. destruct (own "toString" fs); [discriminate | eexists; reflexivity].
Qed.

Lemma js_Number_ok (v : val) :
  no_own_toString v = true -> exists n, js_Number str_to_num fmt_fraction v = Ok n.
Proof.
  intros H. destruct v; try (eexists; reflexivity);
    destruct (js_String_ok _ H) as [s Es]; cbn [js_Number]; rewrite Es;
    eexists; reflexivity.
Qed.

(** One step of a chain of [bind]s that cannot throw. *)
Ltac ok_step :=
  match goal with
  | |- exists _, bind (js_String fmt_fraction ?v) _ = _ =>
      bind_ok (js_String_ok v ltac:(auto 10 with shapes))
  | |- exists _, bind (js_Number str_to_num fmt_fraction ?v) _ = _ =>
      bind_ok (js_Number_ok v ltac:(auto 10 with shapes))
  | |- exists _, bind (Ok _) _ = _ => cbn [bind]
  | |- exists _, bind (if ?c then _ else _) _ = _ => destruct c
  | |- exists _, (let _ := _ in _) = _ => cbv zeta
  | |- exists _, Ok _ = _ => eexists; reflexivity
  | |- exists _, js_String fmt_fraction ?v = _ =>
      exact (js_String_ok v ltac:(auto 10 with shapes))
  end.

Lemma parseClef_ok (raw : val) :
  no_own_toString raw = true -> exists c, parseClef str_to_num fmt_fraction raw = Ok c.
Proof.
  intros H. unfold parseClef. destruct (negb (truthy raw)); [eexists; reflexivity |].
  bind_ok (js_String_ok (coalesce (getp raw "sign") (VStr "G")) ltac:(auto with shapes)).
  bind_ok (js_Number_ok (coalesce (getp raw "line") (VNum (Num 2))) ltac:(auto with shapes)).
  bind_ok (js_Number_ok (coalesce (getp raw "clef-octave-change") (VNum (Num 0)))
             ltac:(auto with shapes)).
  eexists; reflexivity.
Qed.

Lemma parseKey_ok (raw : val) :
  no_own_toString raw = true -> exists k, parseKey str_to_num fmt_fraction raw = Ok k.
Proof.
  intros H. unfold parseKey. destruct (negb (truthy raw)); [eexists; reflexivity |].
  repeat ok_step.
Qed.

Lemma optNumber_ok (raw : val) (k : string) :
  no_own_toString raw = true -> exists o, optNumber str_to_num fmt_fraction raw k = Ok o.
Proof.
  intros H. unfold optNumber. destruct (nullish (getp raw k)); [eexists; reflexivity |].
  repeat ok_step.
Qed.

Lemma parseTime_ok (raw : val) :
  no_own_toString raw = true -> time_block_ok raw = true ->
  exists t, parseTime str_to_num fmt_fraction raw = Ok t.
Proof.
  intros H Ht. unfold parseTime. destruct (truthy raw) eqn:T; [| eexists; reflexivity].
  cbn [negb].
  assert (Hin : exists b, js_in "senza-misura" raw = Ok b).
  { destruct raw; try (eexists; reflexivity); simpl in T, Ht; try discriminate T;
      rewrite T in Ht; discriminate Ht. }
  bind_ok Hin.
  bind_ok (optNumber_ok raw "beats" H).
  bind_ok (optNumber_ok raw "beat-type" H).
  eexists; reflexivity.
Qed.

Lemma parseNote_ok (pi mi : nat) (mNum : string) (x t : jsnum) (k : nat) (rawNote : val) :
  no_own_toString rawNote = true ->
  exists l, parseNote str_to_num fmt_fraction pi mi mNum x t k rawNote = Ok l.
Proof.
  intros H. unfold parseNote.
  destruct (negb (truthy rawNote)); [eexists; reflexivity |].
  destruct (getp rawNote "rest"); try (eexists; reflexivity).
  destruct (negb (truthy (getp rawNote "pitch"))); [eexists; reflexivity |].
  repeat ok_step.
Qed.

Lemma parseNotes_ok (pi mi : nat) (mNum : string) (x t : jsnum) (rawNotes : list val) :
  forallb no_own_toString rawNotes = true ->
  forall k, exists l, parseNotes str_to_num fmt_fraction pi mi mNum x t k rawNotes = Ok l.
Proof.
  induction rawNotes as [| r rest IH]; intros H k; [eexists; reflexivity |].
  simpl in H. apply andb_prop in H as [Hr Hrest]. simpl.
  bind_ok (parseNote_ok pi mi mNum x t k r Hr).
  bind_ok (IH Hrest (S k)).
  eexists; reflexivity.
Qed.

Lemma mNum_of_ok (mi : nat) (m : val) :
  nullish m = false -> no_own_toString m = true ->
  exists s, mNum_of fmt_fraction mi m = Ok s.
Proof.
  intros Hn H. unfold mNum_of. rewrite get_not_nullish by exact Hn. cbn [bind].
  repeat ok_step.
Qed.

Lemma parseMeasures_ok (pi : nat) (ms : list val) :
  forallb (fun m => negb (nullish m)) ms = true -> forallb no_own_toString ms = true ->
  forall mi, exists l, parseMeasures str_to_num fmt_fraction pi mi ms = Ok l.
Proof.
  induction ms as [| m rest IH]; intros Hn H mi; [eexists; reflexivity |].
  simpl in Hn, H. apply andb_prop in Hn as [Hm Hrest]. apply andb_prop in H as [Hm' Hrest'].
  simpl. unfold parseMeasure.
  bind_ok (mNum_of_ok mi m ltac:(destruct (nullish m); [discriminate | reflexivity]) Hm').
  cbv zeta.
  bind_ok (parseNotes_ok pi mi a (jZ (measureStartX mi)) (staffTopOf (SYS_OF_MEASURE mi) pi)
             (toArray (getp m "note")) ltac:(auto with shapes) 0).
  bind_ok (IH Hrest Hrest' (S mi)).
  eexists; reflexivity.
Qed.

Lemma parsePart_ok (rsp : list val) (pi : nat) (part : val) :
  part_shaped part = true -> no_own_toString part = true ->
  exists p, parsePart str_to_num fmt_fraction rsp pi part = Ok p.
Proof.
  intros Hs H. unfold part_shaped in Hs.
  apply andb_prop in Hs as [Hn Hs]. apply andb_prop in Hs as [Hms Ht].
  unfold parsePart. rewrite get_not_nullish by (destruct (nullish part); [discriminate | reflexivity]).
  cbn [bind]. cbv zeta.
  bind_ok (parseClef_ok
    (getp (coalesce (getp (at_index (toArray (getp part "measure")) 0) "attributes") (VObj []))
       "clef") ltac:(auto 10 with shapes)).
  bind_ok (parseKey_ok
    (getp (coalesce (getp (at_index (toArray (getp part "measure")) 0) "attributes") (VObj []))
       "key") ltac:(auto 10 with shapes)).
  bind_ok (parseTime_ok
    (getp (coalesce (getp (at_index (toArray (getp part "measure")) 0) "attributes") (VObj []))
       "time") ltac:(auto 10 with shapes) Ht).
  bind_ok (parseMeasures_ok pi (toArray (getp part "measure")) Hms ltac:(auto with shapes) 0).
  eexists; reflexivity.
Qed.

Lemma parseParts_ok (rsp : list val) (ps : list val) :
  forallb part_shaped ps = true -> forallb no_own_toString ps = true ->
  forall pi, exists r, parseParts str_to_num fmt_fraction rsp pi ps = Ok r.
Proof.
  induction ps as [| p rest IH]; intros Hs H pi; [eexists; reflexivity |].
  simpl in Hs, H. apply andb_prop in Hs as [Hp Hrest]. apply andb_prop in H as [Hp' Hrest'].
  simpl. bind_ok (parsePart_ok rsp pi p Hp Hp'). bind_ok (IH Hrest Hrest' (S pi)).
  eexists; reflexivity.
Qed.

Lemma parseScore_ok_of_shaped (json : val) :
  shaped json = true -> exists r, parseScore str_to_num fmt_fraction json = Ok r.
Proof.
  intros Hs. unfold shaped in Hs.
  apply andb_prop in Hs as [Hs Hp]. apply andb_prop in Hs as [H Hw].
  assert (Hn : nullish json = false) by (destruct json; try discriminate Hw; reflexivity).
  unfold parseScore. rewrite get_not_nullish by exact Hn. cbn [bind].
  change (getp json "score-partwise") with (wrapper json). rewrite Hw. cbn [negb]. cbv zeta.
  bind_ok (parseParts_ok (toArray (getp (getp (wrapper json) "part-list") "score-part"))
             (toArray (getp (wrapper json) "part")) Hp
             ltac:(unfold wrapper; auto with shapes) 0).
  eexists; reflexivity.
Qed.

Lemma parseScore_no_wrapper (json : val) :
  truthy (wrapper json) = false -> exists e, parseScore str_to_num fmt_fraction json = Throw e.
Proof.
  intros Hw. unfold parseScore. unfold wrapper in Hw.
  destruct json; try (eexists; reflexivity); cbn [get bind]; rewrite Hw;
    eexists; reflexivity.
Qed.

Lemma parseNote_shape (pi mi : nat) (mNum : string) (x t : jsnum) (k : nat)
    (rawNote : val) (l : list NoteData) :
  parseNote str_to_num fmt_fraction pi mi mNum x t k rawNote = Ok l ->
  l = [] \/ exists n, l = [n] /\ id n = mk_note_id fmt_fraction pi mNum k.
Proof.
  unfold parseNote. intros H.
  destruct (negb (truthy rawNote)); [injection H as <-; auto |].
  destruct (getp rawNote "rest"); try (injection H as <-; auto).
  destruct (negb (truthy (getp rawNote "pitch"))); [injection H as <-; auto |].
  peel H. injection H as <-. right. eexists; split; reflexivity.
Qed.

(** The fields of the note that [parseNote] pushes, traced to the raw note. *)
Lemma parseNote_fields (pi mi : nat) (mNum : string) (x t : jsnum) (k : nat)
    (rawNote : val) (n : NoteData) :
  parseNote str_to_num fmt_fraction pi mi mNum x t k rawNote = Ok [n] ->
  let pitch := getp rawNote "pitch" in
  (exists stepS, js_String fmt_fraction (coalesce (getp pitch "step") (VStr "C")) = Ok stepS /\
                 step n = toUpperCase stepS) /\
  js_Number str_to_num fmt_fraction (coalesce (getp pitch "octave") (VNum (Num 4))) = Ok (octave n) /\
  (if nullish (getp pitch "alter") then Ok (Num 0)
   else js_Number str_to_num fmt_fraction (getp pitch "alter")) = Ok (alter n) /\
  (exists typeS, js_String fmt_fraction (coalesce (getp rawNote "type") (VStr "quarter")) = Ok typeS /\
                 noteType n = normaliseNoteType typeS).
Proof.
  unfold parseNote. intros H.
  destruct (negb (truthy rawNote)); [discriminate |].
  destruct (getp rawNote "rest"); try discriminate.
  destruct (negb (truthy (getp rawNote "pitch"))); [discriminate |].
  peel_as H stepS Estep. peel_as H oct Eoct. peel_as H alt Ealt. peel_as H typeS Etype.
  peel_as H noteX EX. peel_as H stemS Estem.
  injection H as <-. cbn.
  split; [eauto | split; [exact Eoct | split; [exact Ealt | eauto]]].
Qed.

Lemma normaliseNoteType_other (s : string) :
  ~ In s NOTE_TYPE_NAMES -> ~ In s OBJECT_PROTOTYPE_KEYS -> normaliseNoteType s = NT Quarter.
Proof.
  intros H1 H2. unfold normaliseNoteType.
  repeat match goal with
  | |- context [String.eqb s ?c] =>
      destruct (String.eqb_spec s c) as [E | _]; [subst s; exfalso; apply H1; simpl; tauto |]
  end.
  destruct (existsb (String.eqb s) OBJECT_PROTOTYPE_KEYS) eqn:E; [| reflexivity].
  apply existsb_exists in E as [y [Hy Ey]]. apply String.eqb_eq in Ey. subst y. contradiction.
Qed.

Lemma parseNote_pitchless (pi mi : nat) (mNum : string) (x t : jsnum) (k : nat) (rawNote : val) :
  truthy rawNote = true -> getp rawNote "rest" = VUndef ->
  truthy (getp rawNote "pitch") = false ->
  parseNote str_to_num fmt_fraction pi mi mNum x t k rawNote = Ok [].
Proof.
  intros H1 H2 H3. unfold parseNote. rewrite H1, H2. cbn [negb]. rewrite H3. reflexivity.
Qed.

Lemma parseNotes_ids (pi mi : nat) (mNum : string) (x t : jsnum) (rawNotes : list val) :
  forall k l,
  parseNotes str_to_num fmt_fraction pi mi mNum x t k rawNotes = Ok l ->
  NoDup (map id l) /\
  Forall (fun n => exists k', (k <= k')%nat /\ id n = mk_note_id fmt_fraction pi mNum k') l.
Proof.
  induction rawNotes as [| r rest IH]; intros k l H; cbn [parseNotes] in H.
  - injection H as <-. split; constructor.
  - peel_as H a Ea. peel_as H b Eb. injection H as <-.
    destruct (IH (S k) b Eb) as [Hnd Hf].
    assert (Hf' : Forall (fun n => exists k', (k <= k')%nat /\ id n = mk_note_id fmt_fraction pi mNum k') b).
    { eapply Forall_impl; [| exact Hf]. intros n [k' [Hk' E]]. exists k'. split; [lia | exact E]. }
    destruct (parseNote_shape _ _ _ _ _ _ _ _ Ea) as [-> | [n [-> Hn]]].
    + split; [exact Hnd | exact Hf'].
    + cbn [app map]. split.
      * constructor; [| exact Hnd]. intros Hin. apply in_map_iff in Hin as [n' [E' Hin']].
        rewrite Forall_forall in Hf. destruct (Hf n' Hin') as [k' [Hk' E'']].
        rewrite E'', Hn in E'. apply mk_note_id_inj in E' as [_ [_ E']]. lia.
      * constructor; [exists k; split; [lia | exact Hn] | exact Hf'].
Qed.

Lemma parseMeasures_ids (pi : nat) (ms : list val) :
  forall mi l,
  parseMeasures str_to_num fmt_fraction pi mi ms = Ok l ->
  nodupb (measure_numbers fmt_fraction mi ms) = true ->
  NoDup (map id l) /\
  Forall (fun n => exists s k, In (Ok s) (measure_numbers fmt_fraction mi ms) /\
                               id n = mk_note_id fmt_fraction pi s k) l.
Proof.
  induction ms as [| m rest IH]; intros mi l H Hd; cbn [parseMeasures] in H.
  - injection H as <-. split; constructor.
  - peel_as H a Ea. peel_as H b Eb. injection H as <-.
    unfold parseMeasure in Ea. peel_as Ea s0 Es0.
    apply parseNotes_ids in Ea as [Hnda Hfa].
    cbn [measure_numbers nodupb] in Hd |- *. rewrite Es0 in Hd |- *.
    apply andb_prop in Hd as [Hnot Hd].
    destruct (IH (S mi) b Eb Hd) as [Hndb Hfb].
    rewrite Forall_forall in Hfa, Hfb. split.
    + rewrite map_app. apply NoDup_app_intro; [exact Hnda | exact Hndb |].
      intros y Hya Hyb.
      apply in_map_iff in Hya as [na [Ea' Ha]]. apply in_map_iff in Hyb as [nb [Eb' Hb]].
      destruct (Hfa na Ha) as [k1 [_ E1]]. destruct (Hfb nb Hb) as [s2 [k2 [Hin E2]]].
      assert (E : mk_note_id fmt_fraction pi s0 k1 = mk_note_id fmt_fraction pi s2 k2)
        by congruence.
      apply mk_note_id_inj in E as [_ [<- _]].
      assert (Hex : existsb (res_string_eqb (Ok s0)) (measure_numbers fmt_fraction (S mi) rest) = true).
      { apply existsb_exists. exists (Ok s0). split; [exact Hin | apply String.eqb_refl]. }
      rewrite Hex in Hnot. discriminate.
    + apply Forall_app. split; rewrite Forall_forall.
      * intros n Hn. destruct (Hfa n Hn) as [k1 [_ E1]]. exists s0, k1. split; [left; reflexivity | exact E1].
      * intros n Hn. destruct (Hfb n Hn) as [s2 [k2 [Hin E2]]]. exists s2, k2. split; [right; exact Hin | exact E2].
Qed.

Lemma parseParts_ids (rsp : list val) (ps : list val) :
  forall pi r,
  parseParts str_to_num fmt_fraction rsp pi ps = Ok r ->
  forallb (fun part => nodupb (measure_numbers fmt_fraction 0 (toArray (getp part "measure")))) ps = true ->
  NoDup (map id (snd r)) /\
  Forall (fun n => exists pi' s k, (pi <= pi')%nat /\ id n = mk_note_id fmt_fraction pi' s k) (snd r).
Proof.
  induction ps as [| p rest IH]; intros pi r H Hd; cbn [parseParts] in H.
  - injection H as <-. split; constructor.
  - peel_as H a Ea. peel_as H b Eb. injection H as <-. cbn [snd].
    cbn [forallb] in Hd. apply andb_prop in Hd as [Hdp Hd].
    destruct (IH (S pi) b Eb Hd) as [Hndb Hfb].
    unfold parsePart in Ea. peel_as Ea m Em. apply get_Ok in Em. subst m.
    peel_as Ea c Ec. peel_as Ea k0 Ek. peel_as Ea t Et. peel_as Ea ns Ens.
    injection Ea as <-. cbn [snd].
    apply parseMeasures_ids in Ens as [Hnda Hfa]; [| exact Hdp].
    rewrite Forall_forall in Hfa, Hfb. split.
    + rewrite map_app. apply NoDup_app_intro; [exact Hnda | exact Hndb |].
      intros y Hya Hyb.
      apply in_map_iff in Hya as [na [Ea' Ha]]. apply in_map_iff in Hyb as [nb [Eb' Hb]].
      destruct (Hfa na Ha) as [s1 [k1 [_ E1]]]. destruct (Hfb nb Hb) as [pi2 [s2 [k2 [Hle E2]]]].
      assert (E : mk_note_id fmt_fraction pi s1 k1 = mk_note_id fmt_fraction pi2 s2 k2)
        by congruence.
      apply mk_note_id_inj in E as [E _]. lia.
    + apply Forall_app. split; rewrite Forall_forall.
      * intros n Hn. destruct (Hfa n Hn) as [s1 [k1 [_ E1]]]. exists pi, s1, k1. split; [lia | exact E1].
      * intros n Hn. destruct (Hfb n Hn) as [pi2 [s2 [k2 [Hle E2]]]].
        exists pi2, s2, k2. split; [lia | exact E2].
Qed.

End ParserFacts.

Section ParserClaims.
Variable str_to_num : string -> jsnum.
Variable fmt_fraction : Q -> string.

(** C8 (amended): [parseScore] throws, with no result at all, when the
    ['score-partwise'] wrapper is missing or falsy; it returns a result for
    every document of the declared shape ([shaped]); a note whose type is
    missing, or is a string that is neither one of the seven type names nor
    a key inherited from [Object.prototype], gets type [quarter]; a truthy
    non-rest note without a truthy pitch contributes no note and the parse
    goes on with the next note. *)
Theorem parseScore_failure_and_normalisation :
  (forall json, truthy (wrapper json) = false ->
     exists e, parseScore str_to_num fmt_fraction json = Throw e) /\
  (forall json, shaped json = true ->
     exists r, parseScore str_to_num fmt_fraction json = Ok r) /\
  (forall pi mi mNum x t k rawNote n,
     parseNote str_to_num fmt_fraction pi mi mNum x t k rawNote = Ok [n] ->
     (nullish (getp rawNote "type") = true -> noteType n = NT Quarter) /\
     (forall s, js_String fmt_fraction (getp rawNote "type") = Ok s ->
        ~ In s NOTE_TYPE_NAMES -> ~ In s OBJECT_PROTOTYPE_KEYS -> noteType n = NT Quarter)) /\
  (forall pi mi mNum x t k rawNote rest,
     truthy rawNote = true -> getp rawNote "rest" = VUndef ->
     truthy (getp rawNote "pitch") = false ->
     parseNotes str_to_num fmt_fraction pi mi mNum x t k (rawNote :: rest) =
     parseNotes str_to_num fmt_fraction pi mi mNum x t (S k) rest).
Proof.
  split; [intros json; apply parseScore_no_wrapper |].
  split; [intros json; apply parseScore_ok_of_shaped |].
  split.
  - intros pi mi mNum x t k rawNote n H.
    pose proof (parseNote_fields _ _ _ _ _ _ _ _ _ _ H) as F. cbv zeta in F.
    destruct F as [_ [_ [_ [typeS [Et Hn]]]]].
    unfold coalesce in Et. rewrite Hn.
    destruct (nullish (getp rawNote "type")) eqn:En.
    + cbn in Et. injection Et as <-. split; reflexivity.
    + split; [discriminate |]. intros s Es H1 H2.
      rewrite Es in Et. injection Et as <-. apply normaliseNoteType_other; assumption.
  - intros pi mi mNum x t k rawNote rest H1 H2 H3. cbn [parseNotes].
    rewrite (parseNote_pitchless _ _ _ _ _ _ _ _ _ H1 H2 H3). cbn [bind].
    destruct (parseNotes str_to_num fmt_fraction pi mi mNum x t (S k) rest); reflexivity.
Qed.

(** C9 (amended): in every result of [parseScore] on a document whose
    measures have pairwise distinct [mNum] strings within each part, the
    note ids are pairwise distinct; parsing the same document again gives
    the same ids. *)
Theorem parseScore_ids_distinct (json : val) (r : ParseResult)
  (Hp : parseScore str_to_num fmt_fraction json = Ok r)
  (Hd : distinct_measure_numbers fmt_fraction json = true) :
  NoDup (map id (notes r)) /\
  (forall r', parseScore str_to_num fmt_fraction json = Ok r' ->
              map id (notes r') = map id (notes r)).
Proof.
  split.
  - unfold parseScore in Hp. peel_as Hp w Ew. apply get_Ok in Ew. subst w.
    destruct (negb (truthy (getp json "score-partwise"))); [discriminate |].
    peel_as Hp r' Er. injection Hp as <-. cbn [notes].
    unfold distinct_measure_numbers, wrapper in Hd.
    exact (proj1 (parseParts_ids _ _ _ _ 0 r' Er Hd)).
  - intros r' Hr'. rewrite Hp in Hr'. injection Hr' as ->. reflexivity.
Qed.

(** C10 (amended): on every document of the declared shape ([shaped]: the
    wrapper is truthy, no part or measure entry is [null], the first
    measure's time block is absent or an object, and no object has an own
    [toString]) [parseScore] returns a result.  A missing list becomes the
    empty list; a missing clef, key or time block gives the treble clef on
    line 2 without octave change, no sharps or flats in major, and 4/4; a
    missing step, octave or alter gives C, 4 and 0. *)
Theorem parseScore_total_with_defaults (json : val) (Hs : shaped json = true) :
  (exists r, parseScore str_to_num fmt_fraction json = Ok r) /\
  (forall v, nullish v = true -> toArray v = []) /\
  (forall raw, truthy raw = false ->
     parseClef str_to_num fmt_fraction raw = Ok (mkClef "G" (Num 2) (Num 0)) /\
     parseKey str_to_num fmt_fraction raw = Ok (mkKey (Num 0) "major") /\
     parseTime str_to_num fmt_fraction raw = Ok (mkTime (Some (Num 4)) (Some (Num 4)) false)) /\
  (forall pi mi mNum x t k rawNote n,
     parseNote str_to_num fmt_fraction pi mi mNum x t k rawNote = Ok [n] ->
     let pitch := getp rawNote "pitch" in
     (nullish (getp pitch "step") = true -> step n = "C") /\
     (nullish (getp pitch "octave") = true -> octave n = Num 4) /\
     (nullish (getp pitch "alter") = true -> alter n = Num 0)).
Proof.
  split; [apply parseScore_ok_of_shaped; exact Hs |].
  split; [intros [] H; try discriminate H; reflexivity |].
  split; [intros raw H; unfold parseClef, parseKey, parseTime; rewrite H; repeat split |].
  intros pi mi mNum x t k rawNote n H.
  pose proof (parseNote_fields _ _ _ _ _ _ _ _ _ _ H) as F. cbv zeta in F |- *.
  destruct F as [[stepS [Es Hst]] [Eo [Ea _]]].
  unfold coalesce in Es, Eo.
  split; [| split]; intros Hn.
  - rewrite Hn in Es. cbn in Es. injection Es as <-. rewrite Hst. reflexivity.
  - rewrite Hn in Eo. cbn in Eo. congruence.
  - rewrite Hn in Ea. cbn in Ea. congruence.
Qed.

End ParserClaims.

(** C8 counterexample: a document with the wrapper whose part list holds
    [null] throws (reading [part.measure] of [null]). *)
Lemma parseScore_null_part_throws :
  truthy (wrapper doc_null_part) = true /\
  exists e, parseScore sample_str_to_num sample_fmt_fraction doc_null_part = Throw e.
Proof. split; [reflexivity | eexists; reflexivity]. Qed.

(** C9 counterexample: two measures both numbered ["1"], each with one
    pitched note, give the same id twice. *)
Lemma parseScore_repeated_measure_number :
  match parseScore sample_str_to_num sample_fmt_fraction (doc_two_measures "1" "1") with
  | Ok r => map id (notes r) = ["p0-m1-n0"; "p0-m1-n0"] /\ ~ NoDup (map id (notes r))
  | Throw _ => False
  end.
Proof.
  vm_compute. split; [reflexivity |].
  intros H. inversion H as [| ? ? Hnot _]. apply Hnot. left. reflexivity.
Qed.

(** C9 witness: two measures numbered ["1"] and ["2"]. *)
Lemma parseScore_ids_distinct_witness :
  exists r, parseScore sample_str_to_num sample_fmt_fraction (doc_two_measures "1" "2") = Ok r /\
            distinct_measure_numbers sample_fmt_fraction (doc_two_measures "1" "2") = true /\
            NoDup (map id (notes r)).
Proof.
  destruct (parseScore_ok_of_shaped sample_str_to_num sample_fmt_fraction
              (doc_two_measures "1" "2") ltac:(reflexivity)) as [r Er].
  exists r. split; [exact Er | split; [reflexivity |]].
  exact (proj1 (parseScore_ids_distinct sample_str_to_num sample_fmt_fraction
                  (doc_two_measures "1" "2") r Er ltac:(reflexivity))).
Defined.

(** C10 counterexample: a time block that is a string makes
    ['senza-misura' in raw] throw, although the wrapper is present. *)
Lemma parseScore_string_time_throws :
  truthy (wrapper doc_string_time) = true /\
  exists e, parseScore sample_str_to_num sample_fmt_fraction doc_string_time = Throw e.
Proof. split; [reflexivity | eexists; reflexivity]. Qed.

(** C10 witness: the sparse document is of the declared shape and parses. *)
Lemma parseScore_total_with_defaults_witness :
  shaped doc_sparse = true /\
  exists r, parseScore sample_str_to_num sample_fmt_fraction doc_sparse = Ok r.
Proof.
  split; [reflexivity |].
  exact (proj1 (parseScore_total_with_defaults sample_str_to_num sample_fmt_fraction
                  doc_sparse ltac:(reflexivity))).
Defined.

Close Scope string_scope.


(* ========================================================================= *)
(** * Further properties of the renderer, the hit-test and their callers *)

(* ------------------------------------------------------------------------- *)
(** ** Numeric equality is respected *)

Lemma jeqv_refl (a : jsnum) : jeqv a a.
Proof. destruct a; simpl; [reflexivity | exact I]. Qed.

Lemma jlt_jeqv (a a' b b' : jsnum) : jeqv a a' -> jeqv b b' -> jlt a b = jlt a' b'.
Proof.
  destruct a as [x|], a' as [x'|], b as [y|], b' as [y'|]; simpl; try tauto; try reflexivity.
  intros Ha Hb. f_equal. apply Bool.eq_iff_eq_true. rewrite !Qle_bool_iff, Ha, Hb. tauto.
Qed.

Lemma jsub_jeqv (a a' b b' : jsnum) : jeqv a a' -> jeqv b b' -> jeqv (jsub a b) (jsub a' b').
Proof.
  destruct a as [x|], a' as [x'|], b as [y|], b' as [y'|]; simpl; try tauto.
  intros Ha Hb. rewrite Ha, Hb. reflexivity.
Qed.

Lemma jadd_jeqv (a a' b b' : jsnum) : jeqv a a' -> jeqv b b' -> jeqv (jadd a b) (jadd a' b').
Proof.
  destruct a as [x|], a' as [x'|], b as [y|], b' as [y'|]; simpl; try tauto.
  intros Ha Hb. rewrite Ha, Hb. reflexivity.
Qed.

Lemma jmul_jeqv (a a' b b' : jsnum) : jeqv a a' -> jeqv b b' -> jeqv (jmul a b) (jmul a' b').
Proof.
  destruct a as [x|], a' as [x'|], b as [y|], b' as [y'|]; simpl; try tauto.
  intros Ha Hb. rewrite Ha, Hb. reflexivity.
Qed.

Lemma note_d2_jeqv (sx sy p p' q q' : jsnum) (n : NoteData) :
  jeqv p p' -> jeqv q q' -> jeqv (note_d2 sx sy p q n) (note_d2 sx sy p' q' n).
Proof.
  intros Hp Hq. unfold note_d2.
  assert (Hx : jeqv (jsub (jmul (absX n) sx) p) (jsub (jmul (absX n) sx) p'))
    by (apply jsub_jeqv; [apply jeqv_refl | exact Hp]).
  assert (Hy : jeqv (jsub (jmul (absY n) sy) q) (jsub (jmul (absY n) sy) q'))
    by (apply jsub_jeqv; [apply jeqv_refl | exact Hq]).
  apply jadd_jeqv; apply jmul_jeqv; assumption.
Qed.

Lemma findNoteAt_loop_jeqv (sx sy p p' q q' : jsnum) (l : list NoteData) :
  jeqv p p' -> jeqv q q' ->
  forall best bd bd', jeqv bd bd' ->
  findNoteAt_loop sx sy p q best bd l = findNoteAt_loop sx sy p' q' best bd' l.
Proof.
  intros Hp Hq. induction l as [|n t IH]; intros best bd bd' Hb; simpl; [reflexivity |].
  destruct (isRest n); [apply IH; exact Hb |].
  pose proof (note_d2_jeqv sx sy p p' q q' n Hp Hq) as Hd.
  rewrite (jlt_jeqv _ _ _ _ Hd Hb).
  destruct (jlt (note_d2 sx sy p' q' n) bd'); apply IH; assumption.
Qed.

(** With the default calibration, the current [findNoteAt] returns what the
    earlier, uncalibrated version returns, for every list of notes, query
    point, canvas size and radius. *)
Theorem findNoteAt_default_calibration_v1 (notes : list NoteData)
  (px py canvasW canvasH radius : jsnum) :
  findNoteAt notes px py canvasW canvasH DEFAULT_CALIBRATION radius =
  findNoteAt_v1 notes px py canvasW canvasH radius.
Proof.
  unfold findNoteAt, findNoteAt_v1.
  assert (H : forall p, jeqv (inverseCalib p (Num 1) (Num 0)) p).
  { intros [x|]; simpl; [| exact I]. field. }
  apply findNoteAt_loop_jeqv; [apply H | apply H | apply jeqv_refl].
Qed.

(* ------------------------------------------------------------------------- *)
(** ** Corrections never move a note *)

Lemma findNoteAt_loop_map (f : NoteData -> NoteData)
  (Hf : forall n, isRest (f n) = isRest n /\ absX (f n) = absX n /\ absY (f n) = absY n)
  (sx sy p q : jsnum) (l : list NoteData) :
  forall best bd,
  findNoteAt_loop sx sy p q (option_map f best) bd (map f l) =
  option_map f (findNoteAt_loop sx sy p q best bd l).
Proof.
  induction l as [|n t IH]; intros best bd; simpl; [reflexivity |].
  destruct (Hf n) as [Hr [Hx Hy]].
  assert (Hd : note_d2 sx sy p q (f n) = note_d2 sx sy p q n)
    by (unfold note_d2; rewrite Hx, Hy; reflexivity).
  rewrite Hr, Hd. destruct (isRest n); [apply IH |].
  destruct (jlt (note_d2 sx sy p q n) bd); [apply (IH (Some n)) | apply IH].
Qed.

Lemma applyCorrection_fixed (c : CorrMap) (n : NoteData) :
  note_place (applyCorrection c n) = note_place n /\
  isRest (applyCorrection c n) = isRest n /\ absX (applyCorrection c n) = absX n /\
  absY (applyCorrection c n) = absY n /\ confidence (applyCorrection c n) = confidence n /\
  id (applyCorrection c n) = id n.
Proof. unfold applyCorrection. destruct (map_get c (id n)); repeat split. Qed.

Lemma drawAllNotes_head_centres (notes : list NoteData) (threshold canvasW canvasH : jsnum)
  (cal : CalibrationState) :
  head_centres (drawAllNotes notes threshold canvasW canvasH cal) =
  flat_map (fun n => if isRest n then []
                     else [(applyCalib (jmul (absX n) (jdiv canvasW (Num PAGE_W))) (scaleX cal) (offsetX cal),
                            applyCalib (jmul (absY n) (jdiv canvasH (Num PAGE_H))) (scaleY cal) (offsetY cal))])
           notes.
Proof.
  unfold drawAllNotes. cbn [head_centres]. rewrite head_centres_flat_map.
  induction notes as [|n l IH]; [reflexivity |]. cbn [flat_map]. rewrite IH.
  rewrite (proj1 (drawNote_heads _ _ _ _ _ _)). reflexivity.
Qed.

Lemma length_filter_map {A B : Type} (p : B -> bool) (q : A -> bool) (f : A -> B) (l : list A) :
  (forall a, p (f a) = q a) -> length (filter p (map f l)) = length (filter q l).
Proof.
  intros H. induction l as [|a l IH]; [reflexivity |]. simpl. rewrite H.
  destruct (q a); simpl; rewrite IH; reflexivity.
Qed.

(** Applying the corrections ([effectiveNotes]) changes no note's id,
    position, stem, confidence, part, measure or rest flag; so the overlay
    draws its heads at the same places, the hit-test on the corrected notes
    returns the corrected version of the note it returns on the parsed
    notes, and the statistics panel shows the same counts. *)
Theorem effectiveNotes_keep_layout (notes : list NoteData) (c : CorrMap)
  (threshold canvasW canvasH px py radius : jsnum) (cal : CalibrationState) :
  map note_place (effectiveNotes notes c) = map note_place notes /\
  head_centres (drawAllNotes (effectiveNotes notes c) threshold canvasW canvasH cal) =
    head_centres (drawAllNotes notes threshold canvasW canvasH cal) /\
  findNoteAt (effectiveNotes notes c) px py canvasW canvasH cal radius =
    option_map (applyCorrection c) (findNoteAt notes px py canvasW canvasH cal radius) /\
  controlsStats threshold (effectiveNotes notes c) = controlsStats threshold notes.
Proof.
  unfold effectiveNotes. split; [| split; [| split]].
  - rewrite map_map. apply map_ext. intros n. apply applyCorrection_fixed.
  - rewrite !drawAllNotes_head_centres.
    induction notes as [|n l IH]; [reflexivity |]. cbn [map flat_map]. rewrite IH.
    destruct (applyCorrection_fixed c n) as [_ [-> [-> [-> _]]]]. reflexivity.
  - unfold findNoteAt.
    apply (findNoteAt_loop_map (applyCorrection c)
             ltac:(intros n; destruct (applyCorrection_fixed c n) as [_ [? [? [? _]]]]; auto)
             _ _ _ _ notes None).
  - unfold controlsStats.
    rewrite (length_filter_map _ (fun n => negb (isRest n)) (applyCorrection c) notes)
      by (intros n; destruct (applyCorrection_fixed c n) as [_ [-> _]]; reflexivity).
    rewrite (length_filter_map _ (fun n => negb (isRest n) && conf_ge (confidence n) threshold)
               (applyCorrection c) notes)
      by (intros n; destruct (applyCorrection_fixed c n) as [_ [-> [_ [_ [-> _]]]]]; reflexivity).
    reflexivity.
Qed.

(* ------------------------------------------------------------------------- *)
(** ** Saving and marking notes *)

Lemma map_get_set_same (m : CorrMap) (k : string) (v : NoteCorrection) :
  map_get (map_set m k v) k = Some v.
Proof.
  induction m as [|[k' v'] t IH]; simpl; [rewrite String.eqb_refl; reflexivity |].
  destruct (String.eqb k k') eqn:E; simpl; [rewrite String.eqb_refl; reflexivity |].
  rewrite E. exact IH.
Qed.

Lemma map_get_set_other (m : CorrMap) (k k' : string) (v : NoteCorrection) :
  k' <> k -> map_get (map_set m k v) k' = map_get m k'.
Proof.
  intros Hk. induction m as [|[k0 v0] t IH]; simpl.
  - destruct (String.eqb_spec k' k); [contradiction | reflexivity].
  - destruct (String.eqb_spec k k0) as [<- | _]; simpl.
    + destruct (String.eqb_spec k' k); [contradiction | reflexivity].
    + destruct (String.eqb k' k0); [reflexivity | exact IH].
Qed.

(** Saving the edit dialog of a note: the corrected note shows the form's
    step, octave, alter and type with status [corrected], and keeps its id,
    position and the other fields; no note with another id changes; and
    saving the dialog unchanged, opened on the note as shown, keeps what is
    shown and only marks it [corrected]. *)
Theorem modalSave_roundtrip (c : CorrMap) (n : NoteData) (f : NoteForm) :
  let c' := applyCorrectionAction c (SaveEdit n f) in
  let n' := applyCorrection c' n in
  step n' = form_step f /\ octave n' = form_octave f /\ alter n' = form_alter f /\
  noteType n' = form_noteType f /\ status n' = Corrected /\ note_place n' = note_place n /\
  (forall m, id m <> id n -> applyCorrection c' m = applyCorrection c m) /\
  (let e := applyCorrection c n in
   applyCorrection (applyCorrectionAction c (SaveEdit e (initialForm e))) n =
   mkNote (id e) (step e) (octave e) (alter e) (noteType e) (absX e) (absY e) (stemDir e)
          (confidence e) (partIndex e) (measureNum e) (measureIndex e) (systemIndex e)
          (isRest e) Corrected).
Proof.
  cbv zeta. unfold applyCorrectionAction, modalSave, handleSaveCorrection.
  split; [| split; [| split; [| split; [| split; [| split; [| split]]]]]];
    try (unfold applyCorrection; rewrite map_get_set_same; reflexivity).
  - intros m Hm. unfold applyCorrection at 1. rewrite (map_get_set_other _ _ _ _ Hm). reflexivity.
  - destruct (applyCorrection_fixed c n) as [_ [_ [_ [_ [_ Hid]]]]].
    rewrite Hid. unfold applyCorrection at 1. rewrite map_get_set_same. cbn.
    destruct (applyCorrection_fixed c n) as [Hp _].
    unfold note_place in Hp. injection Hp as H1 H2 H3 H4 H5 H6 H7 H8 H9 H10.
    rewrite ?H1, ?H2, ?H3, ?H4, ?H5, ?H6, ?H7, ?H8, ?H9, ?H10. reflexivity.
Qed.

(** Marking a note OK from the edit dialog (opened on the note as shown)
    replaces any earlier correction of it: the note shows again the step,
    octave, alter and type it was parsed with, its status is [verified],
    and it is drawn in the verified colour at every threshold. *)
Theorem markOK_reverts_correction (c : CorrMap) (n : NoteData) (threshold : jsnum) :
  let n' := applyCorrection (applyCorrectionAction c (MarkOK (applyCorrection c n))) n in
  step n' = step n /\ octave n' = octave n /\ alter n' = alter n /\
  noteType n' = noteType n /\ status n' = Verified /\ noteColor n' threshold = COLOR_VERIFIED.
Proof.
  cbv zeta. unfold applyCorrectionAction, handleMarkOK.
  destruct (applyCorrection_fixed c n) as [_ [_ [_ [_ [_ ->]]]]].
  unfold applyCorrection. rewrite map_get_set_same.
  repeat split.
Qed.

Lemma map_set_keys (m : CorrMap) (k : string) (v : NoteCorrection) :
  map fst (map_set m k v) =
  if in_dec String.string_dec k (map fst m) then map fst m else map fst m ++ [k].
Proof.
  induction m as [|[k' v'] t IH]; cbn [map_set map fst]; [reflexivity |].
  destruct (String.eqb_spec k k') as [E | Hne]; cbn [map fst].
  - subst k'. destruct (in_dec String.string_dec k (k :: map fst t)) as [_ | Hn];
      [reflexivity | exfalso; apply Hn; left; reflexivity].
  - rewrite IH.
    destruct (in_dec String.string_dec k (map fst t)) as [Hi | Hi];
    destruct (in_dec String.string_dec k (k' :: map fst t)) as [Hi' | Hi'];
      try reflexivity.
    + exfalso. apply Hi'. right. exact Hi.
    + destruct Hi' as [E | Hi']; [congruence | contradiction].
Qed.

Lemma map_set_status (m : CorrMap) (k : string) (v : NoteCorrection) (P : NoteCorrection -> Prop) :
  Forall (fun kv => P (snd kv)) m -> P v -> Forall (fun kv => P (snd kv)) (map_set m k v).
Proof.
  intros Hm Hv. induction Hm as [|[k' v'] t H0 Ht IH]; simpl; [constructor; [exact Hv | constructor] |].
  destruct (String.eqb k k'); constructor; simpl; auto.
Qed.

Lemma nodup_length_same {A : Type} (d : forall x y : A, {x = y} + {x <> y}) (l l' : list A) :
  (forall x, In x l <-> In x l') -> length (nodup d l) = length (nodup d l').
Proof.
  intros H. apply Nat.le_antisymm; apply NoDup_incl_length; try apply NoDup_nodup;
    intros x Hx; apply nodup_In; apply H || apply (proj2 (H x)); apply nodup_In in Hx; exact Hx.
Qed.

Lemma counted_status_filter (m : CorrMap) :
  Forall (fun kv => match corr_status (snd kv) with Corrected | Verified => True | Unreviewed => False end) m ->
  correctedCount m = length m.
Proof.
  unfold correctedCount. intros H. induction H as [|[k v] t Hv _ IH]; [reflexivity |].
  simpl in *. destruct (corr_status v); [contradiction | |]; simpl; rewrite IH; reflexivity.
Qed.

Lemma actions_keys (acts : list CorrectionAction) :
  forall m : CorrMap,
  NoDup (map fst m) ->
  Forall (fun kv => match corr_status (snd kv) with Corrected | Verified => True | Unreviewed => False end) m ->
  let m' := fold_left applyCorrectionAction acts m in
  NoDup (map fst m') /\
  Forall (fun kv => match corr_status (snd kv) with Corrected | Verified => True | Unreviewed => False end) m' /\
  (forall x, In x (map fst m') <-> In x (map fst m ++ map (fun a => id (action_note a)) acts)).
Proof.
  induction acts as [|a acts IH]; intros m Hnd Hst; cbv zeta.
  - simpl. rewrite app_nil_r. split; [exact Hnd | split; [exact Hst | tauto]].
  - cbn [fold_left].
    assert (Hk : map fst (applyCorrectionAction m a) =
                 if in_dec String.string_dec (id (action_note a)) (map fst m) then map fst m
                 else map fst m ++ [id (action_note a)]).
    { destruct a as [note f | note]; apply map_set_keys. }
    assert (Hnd' : NoDup (map fst (applyCorrectionAction m a))).
    { rewrite Hk. destruct (in_dec _ _ _) as [_ | Hn]; [exact Hnd |].
      apply NoDup_app_intro; [exact Hnd | constructor; [intros [] | constructor] |].
      intros x Hx [<- | []]. contradiction. }
    assert (Hst' : Forall (fun kv => match corr_status (snd kv) with
                                     | Corrected | Verified => True | Unreviewed => False end)
                     (applyCorrectionAction m a)).
    { destruct a as [note f | note]; cbn [applyCorrectionAction modalSave handleSaveCorrection handleMarkOK];
        apply (map_set_status _ _ _ (fun c => match corr_status c with
                                              | Corrected | Verified => True | Unreviewed => False end));
        simpl; auto. }
    destruct (IH _ Hnd' Hst') as [H1 [H2 H3]].
    split; [exact H1 | split; [exact H2 |]].
    intros x. rewrite H3, Hk. cbn [map].
    destruct (in_dec _ _ _) as [Hin | _]; rewrite !in_app_iff; simpl; split; intuition congruence.
Qed.

(** Starting from no corrections, after any sequence of saves and
    mark-OKs from the edit dialog, the count of corrected notes shown
    ([correctedCount]) is the number of distinct note ids acted upon. *)
Theorem correctedCount_distinct_notes (acts : list CorrectionAction) :
  correctedCount (fold_left applyCorrectionAction acts []) =
  length (nodup String.string_dec (map (fun a => id (action_note a)) acts)).
Proof.
  destruct (actions_keys acts [] (NoDup_nil _) (Forall_nil _)) as [H1 [H2 H3]].
  rewrite counted_status_filter by exact H2.
  rewrite <- (length_map fst).
  rewrite <- (nodup_fixed_point String.string_dec H1).
  apply nodup_length_same. exact H3.
Qed.

(* ------------------------------------------------------------------------- *)
(** ** The staff view agrees with the overlay *)

(** The staff view re-applies the corrections to notes that already carry
    them ([effectiveNotes]); this changes nothing: each staff note is made
    as if there were no corrections, and its colour is the overlay's
    [noteColor] of the corrected note. *)
Theorem vexNoteView_effective (c : CorrMap) (parts : list PartInfo) (threshold : jsnum)
  (partIdx : nat) (n : NoteData) :
  vexNoteView c parts threshold partIdx (applyCorrection c n) =
    vexNoteView [] parts threshold partIdx (applyCorrection c n) /\
  vex_color (vexNoteView c parts threshold partIdx (applyCorrection c n)) =
    noteColor (applyCorrection c n) threshold.
Proof.
  destruct (applyCorrection_fixed c n) as [_ [_ [_ [_ [_ Hid]]]]].
  unfold vexNoteView. rewrite Hid. cbn [map_get].
  unfold applyCorrection. destruct (map_get c (id n)) as [k|] eqn:E; cbn.
  - destruct (corr_step k), (corr_alter k), (corr_octave k), (corr_noteType k);
      cbn; (split; [reflexivity | destruct (corr_status k); reflexivity]).
  - split; [reflexivity | unfold noteColor; destruct (status n); reflexivity].
Qed.

(** For a system index below [NUM_SYSTEMS], a note is drawn on the staff of
    part [partIdx] in system [sysIdx] exactly when it is not a rest, belongs
    to that part, lies in one of the first [NUM_SYSTEMS * MEAS_PER_SYS]
    (eight) measures, and [SYS_OF_MEASURE] puts its measure in that system;
    a note of a later measure is on no staff. *)
Theorem vexPartNotes_placement (notes : list NoteData) (n : NoteData) (sysIdx partIdx : nat)
  (Hs : (sysIdx < NUM_SYSTEMS)%nat) (Hin : In n notes) :
  In n (vexPartNotes notes sysIdx partIdx) <->
  isRest n = false /\ partIndex n = partIdx /\
  (measureIndex n < NUM_SYSTEMS * MEAS_PER_SYS)%nat /\ SYS_OF_MEASURE (measureIndex n) = sysIdx.
Proof.
  unfold vexPartNotes, NUM_SYSTEMS, MEAS_PER_SYS, SYS_OF_MEASURE in *.
  rewrite filter_In. rewrite !Bool.andb_true_iff, Nat.eqb_eq, Nat.leb_le, Nat.ltb_lt,
    Bool.negb_true_iff.
  destruct (measureIndex n <? 4)%nat eqn:E; [apply Nat.ltb_lt in E | apply Nat.ltb_ge in E];
    split; intros H; intuition lia.
Qed.

(* ------------------------------------------------------------------------- *)
(** ** Statistics panel *)

Lemma length_filter_and {A : Type} (p q : A -> bool) (l : list A) :
  (length (filter (fun a => p a && q a) l) <= length (filter p l))%nat.
Proof.
  induction l as [|a l IH]; simpl; [lia |].
  destruct (p a), (q a); simpl; lia.
Qed.

(** The statistics panel never counts more notes above the threshold than
    pitched notes, so [below] is never negative; the percentage shown is
    between 0 and 100, and is 0 when there is no pitched note. *)
Theorem controlsStats_bounds (threshold : jsnum) (notes : list NoteData) :
  let '(total, above, below, pct) := controlsStats threshold notes in
  (above <= total)%nat /\ (0 <= below)%Z /\ (0 <= pct <= 100)%Z /\
  (total = 0%nat -> pct = 0%Z).
Proof.
  unfold controlsStats.
  pose proof (length_filter_and (fun n => negb (isRest n)) (fun n => conf_ge (confidence n) threshold)
                notes) as Hle.
  set (total := length (filter (fun n => negb (isRest n)) notes)) in *.
  set (above := length (filter (fun n => negb (isRest n) && conf_ge (confidence n) threshold) notes)) in *.
  split; [exact Hle | split; [lia |]].
  destruct (0 <? total)%nat eqn:Et; [apply Nat.ltb_lt in Et | apply Nat.ltb_ge in Et].
  - split; [| lia].
    assert (Hq : 0 <= inject_Z (Z.of_nat above) / inject_Z (Z.of_nat total) * 100 <= 100).
    { assert (Ht : inject_Z 0 < inject_Z (Z.of_nat total)) by (rewrite <- Zlt_Qlt; lia).
      assert (Ha : inject_Z 0 <= inject_Z (Z.of_nat above) <= inject_Z (Z.of_nat total))
        by (rewrite <- !Zle_Qle; lia).
      change (inject_Z 0) with (0 # 1) in Ht, Ha.
      generalize dependent (inject_Z (Z.of_nat total)).
      generalize dependent (inject_Z (Z.of_nat above)). intros a t Ht Ha.
      assert (H1 : 0 <= a / t) by (apply Qle_shift_div_l; [exact Ht | lra]).
      assert (H2 : a / t <= 1) by (apply Qle_shift_div_r; [exact Ht | lra]).
      generalize dependent (a / t). intros x H1 H2. lra. }
    unfold js_round.
    generalize dependent (inject_Z (Z.of_nat above) / inject_Z (Z.of_nat total) * 100).
    intros q [Hq0 Hq1].
    pose proof (Qfloor_le (q + (1 # 2))) as Hf. pose proof (Qlt_floor (q + (1 # 2))) as Hf'.
    split.
    + assert (H : inject_Z (-1) < inject_Z (Qfloor (q + (1 # 2)))).
      { unfold inject_Z at 1. rewrite inject_Z_plus in Hf'. unfold inject_Z at 2 in Hf'. lra. }
      rewrite <- Zlt_Qlt in H. lia.
    + assert (H : inject_Z (Qfloor (q + (1 # 2))) < inject_Z 101).
      { unfold inject_Z at 2. lra. }
      rewrite <- Zlt_Qlt in H. lia.
  - split; [split; lia | reflexivity].
Qed.

(* ------------------------------------------------------------------------- *)
(** ** Flags and accidentals drawn for a note *)

Lemma curves_app (a b : list cmd) : curves (a ++ b) = (curves a + curves b)%nat.
Proof. induction a as [|c a IH]; [reflexivity |]. destruct c; simpl; rewrite ?IH; reflexivity. Qed.

Lemma glyphs_app (a b : list cmd) : glyphs (a ++ b) = glyphs a ++ glyphs b.
Proof. induction a as [|c a IH]; [reflexivity |]. destruct c; simpl; rewrite ?IH; reflexivity. Qed.

Lemma ledger_above_plain (f : nat) (cx w lim st ly : jsnum) :
  curves (ledger_above f cx w lim st ly) = O /\ glyphs (ledger_above f cx w lim st ly) = [].
Proof.
  revert ly. induction f as [|f IH]; intro ly; simpl; [split; reflexivity |].
  destruct (jle lim ly); simpl; [apply IH | split; reflexivity].
Qed.

Lemma ledger_below_plain (f : nat) (cx w lim st ly : jsnum) :
  curves (ledger_below f cx w lim st ly) = O /\ glyphs (ledger_below f cx w lim st ly) = [].
Proof.
  revert ly. induction f as [|f IH]; intro ly; simpl; [split; reflexivity |].
  destruct (jle ly lim); simpl; [apply IH | split; reflexivity].
Qed.

Lemma drawLedgerLines_plain (cx cy t b ls rx : jsnum) (c : string) :
  curves (drawLedgerLines cx cy t b ls rx c) = O /\ glyphs (drawLedgerLines cx cy t b ls rx c) = [].
Proof.
  unfold drawLedgerLines. rewrite !curves_app, !glyphs_app.
  destruct (jlt cy _); destruct (jlt _ cy);
    repeat match goal with
    | |- context [ledger_above ?f ?a ?b ?c ?d ?e] =>
        destruct (ledger_above_plain f a b c d e) as [-> ->]
    | |- context [ledger_below ?f ?a ?b ?c ?d ?e] =>
        destruct (ledger_below_plain f a b c d e) as [-> ->]
    end; split; reflexivity.
Qed.

Lemma drawFlags_plain (tx ty : jsnum) (sd : StemDir) (k : nat) (rx ry : jsnum) (c : string) :
  curves (drawFlags tx ty sd k rx ry c) = match sd with StemNone => O | _ => k end /\
  glyphs (drawFlags tx ty sd k rx ry c) = [].
Proof.
  assert (H : forall (g : nat -> list cmd) (l : list nat),
             (forall f, curves (g f) = 1%nat /\ glyphs (g f) = []) ->
             curves (flat_map g l) = length l /\ glyphs (flat_map g l) = []).
  { intros g l Hg. induction l as [|f l IH]; [split; reflexivity |]. cbn [flat_map].
    rewrite curves_app, glyphs_app. destruct (Hg f) as [-> ->]. destruct IH as [-> ->].
    split; reflexivity. }
  unfold drawFlags. destruct sd, k as [|k]; try (split; reflexivity);
    cbn [app curves glyphs];
    (edestruct H as [-> ->]; [intros f; split; reflexivity |]; rewrite length_seq; split; reflexivity).
Qed.

(** For every note, the canvas draws one flag curve per flag of its type
    ([flagsForType]) when the note has a stem and none when it has none, and
    one accidental glyph unless its [alter] is 0: a flat for a negative
    [alter] (a double flat too), a sharp for a positive one and for [NaN];
    a rest gets neither. *)
Theorem drawNote_flags_accidental (sx sy : jsnum) (cal : CalibrationState) (S : Symbols)
  (threshold : jsnum) (note : NoteData) :
  curves (drawNote sx sy cal S threshold note) =
    (if isRest note then O
     else match stemDir note with StemNone => O | _ => flagsForType (noteType note) end) /\
  glyphs (drawNote sx sy cal S threshold note) =
    (if isRest note then []
     else match alter note with
          | Num a => if Qeq_bool a 0 then [] else if Qle_bool 0 a then [GlyphSharp] else [GlyphFlat]
          | NaN => [GlyphSharp]
          end).
Proof.
  unfold drawNote. destruct (isRest note); [split; reflexivity |].
  set (cx := applyCalib (jmul (absX note) sx) (scaleX cal) (offsetX cal)).
  set (cy := applyCalib (jmul (absY note) sy) (scaleY cal) (offsetY cal)).
  destruct (drawStem cx cy (sym_rx S) (stemDir note) (sym_stemLen S) (noteColor note threshold))
    as [stemCmds [tx ty]] eqn:Estem.
  assert (Hstem : curves stemCmds = O /\ glyphs stemCmds = []).
  { unfold drawStem in Estem. destruct (stemDir note); injection Estem as <- _ _;
      split; reflexivity. }
  rewrite !curves_app, !glyphs_app.
  rewrite (proj1 (drawLedgerLines_plain _ _ _ _ _ _ _)), (proj2 (drawLedgerLines_plain _ _ _ _ _ _ _)).
  destruct Hstem as [-> ->].
  assert (Hhead : forall o, curves (drawHead cx cy (sym_rx S) (sym_ry S) (noteColor note threshold) o) = O /\
                            glyphs (drawHead cx cy (sym_rx S) (sym_ry S) (noteColor note threshold) o) = []).
  { intros []; split; reflexivity. }
  rewrite (proj1 (Hhead _)), (proj2 (Hhead _)).
  assert (Hfl : curves (if (0 <? flagsForType (noteType note))%nat
                        then drawFlags tx ty (stemDir note) (flagsForType (noteType note))
                               (sym_rx S) (sym_ry S) (noteColor note threshold)
                        else []) =
                match stemDir note with StemNone => O | _ => flagsForType (noteType note) end /\
                glyphs (if (0 <? flagsForType (noteType note))%nat
                        then drawFlags tx ty (stemDir note) (flagsForType (noteType note))
                               (sym_rx S) (sym_ry S) (noteColor note threshold)
                        else []) = []).
  { destruct (0 <? flagsForType (noteType note))%nat eqn:E; [apply drawFlags_plain |].
    apply Nat.ltb_ge in E. destruct (stemDir note); split; simpl; try reflexivity; lia. }
  rewrite (proj1 Hfl), (proj2 Hfl).
  unfold drawAccidental. destruct (alter note) as [a|]; cbn [jseq jlt].
  - destruct (Qeq_bool a 0); [split; reflexivity |].
    destruct (Qle_bool 0 a); split; reflexivity.
  - split; reflexivity.
Qed.

(* ------------------------------------------------------------------------- *)
(** ** Calibration *)

Lemma jdiv_PAGE_W (w : Q) : jdiv (Num w) (Num PAGE_W) = Num (w / PAGE_W).
Proof. reflexivity. Qed.

Lemma jdiv_PAGE_H (h : Q) : jdiv (Num h) (Num PAGE_H) = Num (h / PAGE_H).
Proof. reflexivity. Qed.

(** A click at [(px, py)] in calibration mode keeps the scales and the note
    scale, and sets the offsets so that a note placed at the top-left corner
    of the printed score area ([LEFT_MARGIN], [TOP_MARGIN]) has its head
    drawn exactly at [(px, py)], whatever the previous offsets. *)
Theorem calibrationClick_places_origin (px py w h s t : Q) (ox oy ns threshold : jsnum)
  (note : NoteData) :
  let prev := mkCalib ox oy (Num s) (Num t) ns in
  let cal := handleCalibrationClick (Num px) (Num py) (Num w) (Num h) prev in
  scaleX cal = Num s /\ scaleY cal = Num t /\ noteScale cal = ns /\
  (isRest note = false -> absX note = jZ LEFT_MARGIN -> absY note = jZ TOP_MARGIN ->
   exists x y, head_centres (drawAllNotes [note] threshold (Num w) (Num h) cal) = [(Num x, Num y)] /\
               (x == px)%Q /\ (y == py)%Q).
Proof.
  cbv zeta. split; [reflexivity | split; [reflexivity | split; [reflexivity |]]].
  intros Hr Hx Hy. rewrite drawAllNotes_head_centres. cbn [flat_map]. rewrite Hr, Hx, Hy.
  rewrite jdiv_PAGE_W, jdiv_PAGE_H. cbn.
  eexists _, _. split; [reflexivity |].
  unfold PAGE_W, PAGE_H. split; field.
Qed.

Lemma in_head_centres_inv (notes : list NoteData) (threshold canvasW canvasH : jsnum)
  (cal : CalibrationState) (x y : jsnum) :
  In (x, y) (head_centres (drawAllNotes notes threshold canvasW canvasH cal)) ->
  exists n, In n notes /\ isRest n = false /\
    applyCalib (jmul (absX n) (jdiv canvasW (Num PAGE_W))) (scaleX cal) (offsetX cal) = x /\
    applyCalib (jmul (absY n) (jdiv canvasH (Num PAGE_H))) (scaleY cal) (offsetY cal) = y.
Proof.
  rewrite drawAllNotes_head_centres, in_flat_map. intros (n & Hn & H).
  destruct (isRest n) eqn:Er; [destruct H |].
  destruct H as [E | []]. injection E as <- <-. exists n. auto.
Qed.

Lemma note_d2_Num (sx sy p q : Q) (m : NoteData) (d : Q) :
  note_d2 (Num sx) (Num sy) (Num p) (Num q) m = Num d ->
  exists ax ay, absX m = Num ax /\ absY m = Num ay /\
    d = ((ax * sx - p) * (ax * sx - p) + (ay * sy - q) * (ay * sy - q))%Q.
Proof.
  unfold note_d2. destruct (absX m) as [ax|], (absY m) as [ay|]; simpl; intro H; try discriminate.
  injection H as <-. exists ax, ay. auto.
Qed.

Lemma Q_sq_sum_nonneg (a b : Q) : (0 <= a * a + b * b)%Q.
Proof. nra. Qed.

Lemma Q_sq_sum_zero (a b : Q) : (a * a + b * b <= 0)%Q -> (a == 0)%Q /\ (b == 0)%Q.
Proof. intro H. split; nra. Qed.

(** With nonzero scales and a nonzero radius, pointing exactly at a note
    head drawn by [drawAllNotes] makes [findNoteAt] return a note, not a
    rest, of the list, whose head is drawn at that same point. *)
Theorem findNoteAt_at_drawn_head (notes : list NoteData) (threshold : jsnum)
  (w h s t ox oy r cx cy : Q) (ns : jsnum)
  (Hs : ~ (s == 0)%Q) (Ht : ~ (t == 0)%Q) (Hr : ~ (r == 0)%Q) :
  let cal := mkCalib (Num ox) (Num oy) (Num s) (Num t) ns in
  In (Num cx, Num cy) (head_centres (drawAllNotes notes threshold (Num w) (Num h) cal)) ->
  exists m, findNoteAt notes (Num cx) (Num cy) (Num w) (Num h) cal (Num r) = Some m /\
    In m notes /\ isRest m = false /\
    jeqv (applyCalib (jmul (absX m) (jdiv (Num w) (Num PAGE_W))) (Num s) (Num ox)) (Num cx) /\
    jeqv (applyCalib (jmul (absY m) (jdiv (Num h) (Num PAGE_H))) (Num t) (Num oy)) (Num cy).
Proof.
  intros cal Hin.
  destruct (in_head_centres_inv _ _ _ _ _ _ _ Hin) as (n & Hn & Hrn & Ex & Ey).
  rewrite jdiv_PAGE_W in Ex |- *. rewrite jdiv_PAGE_H in Ey |- *.
  set (sxq := w / PAGE_W) in *. set (syq := h / PAGE_H) in *.
  cbn [cal scaleX scaleY offsetX offsetY] in Ex, Ey.
  destruct (absX n) as [ax|] eqn:Eax; [| discriminate]. destruct (absY n) as [ay|] eqn:Eay; [| discriminate].
  cbn in Ex, Ey. injection Ex as Ex. injection Ey as Ey.
  assert (Es : Qeq_bool s 0 = false) by (apply Bool.not_true_iff_false; rewrite Qeq_bool_iff; exact Hs).
  assert (Et : Qeq_bool t 0 = false) by (apply Bool.not_true_iff_false; rewrite Qeq_bool_iff; exact Ht).
  assert (Hpx : inverseCalib (Num cx) (scaleX cal) (offsetX cal) = Num ((cx - ox) / s))
    by (cbn; rewrite Es; reflexivity).
  assert (Hpy : inverseCalib (Num cy) (scaleY cal) (offsetY cal) = Num ((cy - oy) / t))
    by (cbn; rewrite Et; reflexivity).
  unfold findNoteAt. rewrite jdiv_PAGE_W, jdiv_PAGE_H, Hpx, Hpy.
  fold sxq syq.
  pose proof (findNoteAt_loop_spec (Num sxq) (Num syq) (Num ((cx - ox) / s)) (Num ((cy - oy) / t))
                notes None (jmul (Num r) (Num r))) as Hspec.
  set (D := note_d2 (Num sxq) (Num syq) (Num ((cx - ox) / s)) (Num ((cy - oy) / t))) in *.
  assert (HDn : D n = Num ((ax * sxq - (cx - ox) / s) * (ax * sxq - (cx - ox) / s) +
                           (ay * syq - (cy - oy) / t) * (ay * syq - (cy - oy) / t))).
  { unfold D, note_d2. rewrite Eax, Eay. reflexivity. }
  assert (Hdx : (ax * sxq - (cx - ox) / s == 0)%Q) by (rewrite <- Ex; field; exact Hs).
  assert (Hdy : (ay * syq - (cy - oy) / t == 0)%Q) by (rewrite <- Ey; field; exact Ht).
  assert (Hr2 : (0 < r * r)%Q).
  { destruct (Q_dec r 0) as [[Hlt | Hgt] | Heq]; [nra | nra | contradiction]. }
  assert (Hn0 : jlt (D n) (jmul (Num r) (Num r)) = true).
  { rewrite HDn. apply jlt_Num. rewrite Hdx, Hdy. simpl. lra. }
  destruct (findNoteAt_loop (Num sxq) (Num syq) (Num ((cx - ox) / s)) (Num ((cy - oy) / t))
              None (jmul (Num r) (Num r)) notes) as [m|].
  - destruct Hspec as [[Hb _] | (pre & post & Hl & Hrm & Hlt & Hpre & Hpost)]; [discriminate |].
    destruct (jlt_Num_inv _ _ Hlt) as (dm & r2 & EDm & _ & _).
    destruct (note_d2_Num _ _ _ _ _ _ EDm) as (am & bm & Eam & Ebm & Edm).
    assert (Hdm0 : (0 <= dm)%Q) by (rewrite Edm; apply Q_sq_sum_nonneg).
    assert (Hdm : (dm <= 0)%Q).
    { set (dn := ((ax * sxq - (cx - ox) / s) * (ax * sxq - (cx - ox) / s) +
                  (ay * syq - (cy - oy) / t) * (ay * syq - (cy - oy) / t))%Q) in HDn.
      assert (Hdn : (dn == 0)%Q) by (unfold dn; rewrite Hdx, Hdy; reflexivity).
      clearbody dn.
      rewrite Hl in Hn. apply in_app_iff in Hn. destruct Hn as [Hn | [<- | Hn]].
      - pose proof (Hpre n Hn Hrn Hn0) as H. rewrite EDm, HDn in H.
        apply jlt_Num in H. lra.
      - rewrite HDn in EDm. injection EDm as <-. lra.
      - pose proof (Hpost n Hn Hrn) as H. rewrite EDm, HDn in H.
        apply Qnot_lt_le. intro Hc.
        rewrite (jlt_Num_true dn dm) in H; [discriminate | lra]. }
    exists m. split; [reflexivity |].
    split; [rewrite Hl; apply in_app_iff; right; left; reflexivity |].
    split; [exact Hrm |].
    rewrite Edm in Hdm. apply Q_sq_sum_zero in Hdm. destruct Hdm as [Hxm Hym].
    rewrite Eam, Ebm. cbn.
    split.
    + assert (E : (am * sxq == (cx - ox) / s)%Q) by lra. rewrite E. field. exact Hs.
    + assert (E : (bm * syq == (cy - oy) / t)%Q) by lra. rewrite E. field. exact Ht.
  - destruct Hspec as [_ Hno]. rewrite (Hno n Hn Hrn) in Hn0. discriminate.
Qed.

Lemma slider_percent_bounds (v lo hi : Z) :
  (lo <=? v)%Z && (v <=? hi)%Z = true ->
  exists q, jdiv (jZ v) (Num 100) = Num q /\ (inject_Z lo / 100 <= q <= inject_Z hi / 100)%Q.
Proof.
  intro H. apply andb_true_iff in H. destruct H as [H1 H2].
  apply Z.leb_le in H1. apply Z.leb_le in H2.
  rewrite Zle_Qle in H1, H2. eexists. split; [reflexivity |].
  unfold Qdiv. change (/ 100) with (1 # 100). split; apply Qmult_le_r; try reflexivity; assumption.
Qed.

Lemma applyCalibrationAction_scales_ok (cal : CalibrationState) (a : CalibrationAction) :
  scales_ok cal -> slider_in_range a = true -> scales_ok (applyCalibrationAction cal a).
Proof.
  intros (s & k & Hx & Hy & Hs & Hn & Hk) Ha.
  destruct a as [v|v|v|v| |px py w h]; cbn [applyCalibrationAction slider_in_range] in *.
  - exists s, k. cbn. auto.
  - exists s, k. cbn. auto.
  - destruct (slider_percent_bounds _ _ _ Ha) as (q & Eq & Hq).
    exists q, k. unfold calib_set; cbn [opt_or patch_scaleX patch_scaleY patch_noteScale
      scaleX scaleY noteScale]. rewrite Eq.
    unfold Qdiv, inject_Z in Hq. change (/ 100) with (1 # 100) in Hq. destruct Hq as [Hq1 Hq2].
    repeat split; try reflexivity; try tauto; lra.
  - destruct (slider_percent_bounds _ _ _ Ha) as (q & Eq & Hq).
    exists s, q. unfold calib_set; cbn [opt_or patch_scaleX patch_scaleY patch_noteScale
      scaleX scaleY noteScale]. rewrite Eq.
    unfold Qdiv, inject_Z in Hq. change (/ 100) with (1 # 100) in Hq. destruct Hq as [Hq1 Hq2].
    repeat split; try reflexivity; try tauto; lra.
  - exists 1, 1. cbn. repeat split; discriminate.
  - exists s, k. cbn. auto.
Qed.

(** Whatever the user does with the calibration panel (the sliders within
    their ranges, the reset button) and calibration clicks, starting from
    the default calibration the two scales stay equal, between 0.5 and 2,
    and the note scale stays between 0.4 and 2; in particular no scale
    becomes 0 or NaN, so [inverseCalib] in [findNoteAt] never divides by 0. *)
Theorem calibration_scales_in_range (acts : list CalibrationAction)
  (Hacts : forallb slider_in_range acts = true) :
  let cal := fold_left applyCalibrationAction acts DEFAULT_CALIB in
  exists s k, scaleX cal = Num s /\ scaleY cal = Num s /\ (1 # 2 <= s <= 2)%Q /\
              noteScale cal = Num k /\ (2 # 5 <= k <= 2)%Q.
Proof.
  cbv zeta. change (scales_ok (fold_left applyCalibrationAction acts DEFAULT_CALIB)).
  assert (H0 : scales_ok DEFAULT_CALIB) by (exists 1, 1; cbn; repeat split; discriminate).
  revert H0 Hacts. generalize DEFAULT_CALIB. induction acts as [|a acts IH]; intros cal H0 Hacts;
    [exact H0 |].
  cbn [forallb] in Hacts. apply andb_true_iff in Hacts. destruct Hacts as [Ha Hacts].
  cbn [fold_left]. apply IH; [apply applyCalibrationAction_scales_ok |]; assumption.
Qed.

(* ------------------------------------------------------------------------- *)
(** ** What [parseScore] returns, and what the hit-test can find in it *)

Lemma jadd_Num_inv (a b : jsnum) (q : Q) :
  jadd a b = Num q -> exists x y, a = Num x /\ b = Num y.
Proof. destruct a as [x|], b as [y|]; try discriminate. intros _. eauto. Qed.

Lemma jmul_Num_inv (a b : jsnum) (q : Q) :
  jmul a b = Num q -> exists x y, a = Num x /\ b = Num y.
Proof. destruct a as [x|], b as [y|]; try discriminate. intros _. eauto. Qed.

Lemma jsub_Num_inv (a b : jsnum) (q : Q) :
  jsub a b = Num q -> exists x y, a = Num x /\ b = Num y.
Proof. destruct a as [x|], b as [y|]; try discriminate. intros _. eauto. Qed.

Lemma staffTopOf_Num (sysIdx partIdx : nat) (q : Q) :
  staffTopOf sysIdx partIdx = Num q -> (partIdx < 3)%nat.
Proof.
  unfold staffTopOf. destruct sysIdx as [|[|sysIdx]]; cbn [nth_error STAFF_TOPS];
    [| | destruct sysIdx; discriminate];
    (destruct partIdx as [|[|[|partIdx]]]; cbn [nth_error]; intro H; [lia | lia | lia |];
     destruct partIdx; discriminate).
Qed.

Lemma pitchToYOffset_Num (st : string) (o pi : jsnum) (q : Q) :
  pitchToYOffset st o pi = Num q -> STEP_NUM st <> None /\ exists o', o = Num o'.
Proof.
  unfold pitchToYOffset. intro H.
  assert (Hp : exists p, jadd (jmul o (Num 7)) (match STEP_NUM st with Some k => jZ k | None => NaN end)
                         = Num p).
  { destruct (jseq pi (Num 2));
      destruct (jsub_Num_inv _ _ _ H) as (x & y & _ & Ey);
      destruct (jmul_Num_inv _ _ _ Ey) as (u & v & _ & Ev); eauto. }
  destruct Hp as [p Hp]. destruct (jadd_Num_inv _ _ _ Hp) as (x & y & Ex & Ey).
  destruct (jmul_Num_inv _ _ _ Ex) as (o' & _ & Eo & _).
  split; [| eauto]. destruct (STEP_NUM st); discriminate.
Qed.

Lemma note_d2_absY (sx sy p q : jsnum) (m : NoteData) (d : Q) :
  note_d2 sx sy p q m = Num d -> exists y, absY m = Num y.
Proof.
  unfold note_d2. intro H.
  destruct (jadd_Num_inv _ _ _ H) as (u & v & _ & Ev).
  destruct (jmul_Num_inv _ _ _ Ev) as (a & _ & Ea & _).
  destruct (jsub_Num_inv _ _ _ Ea) as (b & _ & Eb & _).
  destruct (jmul_Num_inv _ _ _ Eb) as (y & _ & Ey & _). eauto.
Qed.

Lemma findNoteAt_found (notes : list NoteData) (px py canvasW canvasH : jsnum)
  (cal : CalibrationState) (radius : jsnum) (m : NoteData) :
  findNoteAt notes px py canvasW canvasH cal radius = Some m ->
  In m notes /\ isRest m = false /\ exists y, absY m = Num y.
Proof.
  unfold findNoteAt. intro H.
  pose proof (findNoteAt_loop_spec (jdiv canvasW (Num PAGE_W)) (jdiv canvasH (Num PAGE_H))
    (inverseCalib px (scaleX cal) (offsetX cal)) (inverseCalib py (scaleY cal) (offsetY cal))
    notes None (jmul radius radius)) as Hs.
  rewrite H in Hs. destruct Hs as [[Hb _] | (pre & post & Hl & Hr & Hlt & _ & _)]; [discriminate |].
  split; [rewrite Hl; apply in_app_iff; right; left; reflexivity |].
  split; [exact Hr |].
  destruct (jlt_Num_inv _ _ Hlt) as (d & _ & Ed & _ & _).
  exact (note_d2_absY _ _ _ _ _ _ Ed).
Qed.

Section ParserInvariants.
Variable str_to_num : string -> jsnum.
Variable fmt_fraction : Q -> string.

Lemma parseNote_placed (pi mi : nat) (mNum : string) (x t : jsnum) (k : nat)
    (rawNote : val) (l : list NoteData) :
  parseNote str_to_num fmt_fraction pi mi mNum x t k rawNote = Ok l ->
  Forall (fun n => isRest n = false /\ status n = Unreviewed /\ partIndex n = pi /\
                   measureIndex n = mi /\ systemIndex n = SYS_OF_MEASURE mi /\
                   absY n = jadd t (pitchToYOffset (step n) (octave n) (jnat pi))) l.
Proof.
  unfold parseNote. intros H.
  destruct (negb (truthy rawNote)); [injection H as <-; constructor |].
  destruct (getp rawNote "rest"%string); try (injection H as <-; constructor).
  destruct (negb (truthy (getp rawNote "pitch"%string))); [injection H as <-; constructor |].
  peel H. injection H as <-. repeat constructor.
Qed.

Lemma parseNotes_placed (pi mi : nat) (mNum : string) (x t : jsnum) (rawNotes : list val) :
  forall k l, parseNotes str_to_num fmt_fraction pi mi mNum x t k rawNotes = Ok l ->
  Forall (fun n => isRest n = false /\ status n = Unreviewed /\ partIndex n = pi /\
                   measureIndex n = mi /\ systemIndex n = SYS_OF_MEASURE mi /\
                   absY n = jadd t (pitchToYOffset (step n) (octave n) (jnat pi))) l.
Proof.
  induction rawNotes as [|r rest IH]; intros k l H; cbn [parseNotes] in H.
  - injection H as <-. constructor.
  - peel_as H a Ea. peel_as H b Eb. injection H as <-.
    apply Forall_app. split; [exact (parseNote_placed _ _ _ _ _ _ _ _ Ea) | exact (IH _ _ Eb)].
Qed.

Lemma parseMeasures_placed (pi : nat) (ms : list val) :
  forall mi l, parseMeasures str_to_num fmt_fraction pi mi ms = Ok l ->
  Forall (fun n => parsed_placement n /\ partIndex n = pi) l.
Proof.
  induction ms as [|m rest IH]; intros mi l H; cbn [parseMeasures] in H.
  - injection H as <-. constructor.
  - peel_as H a Ea. peel_as H b Eb. injection H as <-.
    apply Forall_app. split; [| exact (IH _ _ Eb)].
    unfold parseMeasure in Ea. peel_as Ea mNum EmNum. cbv zeta in Ea.
    eapply Forall_impl; [| exact (parseNotes_placed _ _ _ _ _ _ _ _ Ea)].
    intros n (Hr & Hst & Hp & Hm & Hsys & Hy). unfold parsed_placement.
    rewrite Hsys, Hm, Hp. auto.
Qed.

Lemma parseParts_placed (rsp : list val) (ps : list val) :
  forall pi infos ns, parseParts str_to_num fmt_fraction rsp pi ps = Ok (infos, ns) ->
  length infos = length ps /\
  Forall (fun n => parsed_placement n /\ (pi <= partIndex n < pi + length ps)%nat) ns.
Proof.
  induction ps as [|p rest IH]; intros pi infos ns H; cbn [parseParts] in H.
  - injection H as <- <-. split; [reflexivity | constructor].
  - peel_as H a Ea. peel_as H b Eb. injection H as <- <-.
    destruct b as [binfos bns]. destruct (IH _ _ _ Eb) as [Hlen Hb].
    unfold parsePart in Ea. peel Ea. injection Ea as <-. cbn [fst snd length].
    split; [rewrite Hlen; reflexivity |].
    apply Forall_app. split.
    + eapply Forall_impl; [| eapply parseMeasures_placed; eassumption].
      intros n [Hn Hp]. split; [exact Hn | lia].
    + eapply Forall_impl; [| exact Hb]. intros n [Hn Hp]. split; [exact Hn | lia].
Qed.

Lemma parseScore_placed (json : val) (r : ParseResult) :
  parseScore str_to_num fmt_fraction json = Ok r ->
  length (parts r) = length (toArray (getp (wrapper json) "part"%string)) /\
  layout r = mkLayout (Num PAGE_W) (Num PAGE_H) /\
  Forall (fun n => parsed_placement n /\ (partIndex n < length (parts r))%nat) (notes r).
Proof.
  unfold parseScore. intros Hp. peel_as Hp w Ew. apply get_Ok in Ew. subst w.
  destruct (negb (truthy (getp json "score-partwise"%string))); [discriminate |].
  peel_as Hp r' Er. injection Hp as <-. destruct r' as [infos ns]. cbn [notes parts layout fst snd].
  destruct (parseParts_placed _ _ _ _ _ Er) as [Hlen Hall].
  unfold wrapper. rewrite Hlen. split; [reflexivity | split; [reflexivity |]].
  eapply Forall_impl; [| exact Hall]. intros n [Hn Hb]. split; [exact Hn | lia].
Qed.

(** Every result of [parseScore] has one part info per raw part, the page
    layout 1365 by 1922, and notes that are none of them rests, all
    [unreviewed], each in a part of the result, each in the system of its
    measure and on that system's staff of its part at the offset of its
    pitch ([parsed_placement]); so the canvas draws one head for every
    parsed note. *)
Theorem parseScore_result_shape (json : val) (r : ParseResult)
  (Hp : parseScore str_to_num fmt_fraction json = Ok r) :
  length (parts r) = length (toArray (getp (wrapper json) "part"%string)) /\
  layout r = mkLayout (Num PAGE_W) (Num PAGE_H) /\
  Forall (fun n => parsed_placement n /\ (partIndex n < length (parts r))%nat) (notes r) /\
  (forall threshold canvasW canvasH cal,
     length (head_centres (drawAllNotes (notes r) threshold canvasW canvasH cal)) =
     length (notes r)).
Proof.
  destruct (parseScore_placed json r Hp) as (Hlen & Hl & Hall).
  split; [exact Hlen | split; [exact Hl | split; [exact Hall |]]].
  intros threshold canvasW canvasH cal. rewrite drawAllNotes_head_centres.
  induction Hall as [|n l [[Hr _] _] _ IH]; [reflexivity |].
  cbn [flat_map length]. rewrite Hr. cbn [app length]. rewrite IH. reflexivity.
Qed.

(** A note of a parsed score that the hit-test can return is in a part
    with a staff (one of the first three parts), has one of the seven step
    letters and a numeric octave: the notes of a fourth part, or with an
    unknown step or a non-numeric octave, are drawn at a [NaN] height and
    can never be picked. *)
Theorem parseScore_hit_is_placed (json : val) (r : ParseResult)
  (Hp : parseScore str_to_num fmt_fraction json = Ok r)
  (px py canvasW canvasH radius : jsnum) (cal : CalibrationState) (m : NoteData)
  (Hf : findNoteAt (notes r) px py canvasW canvasH cal radius = Some m) :
  In m (notes r) /\ (partIndex m < 3)%nat /\ STEP_NUM (step m) <> None /\
  exists o, octave m = Num o.
Proof.
  destruct (findNoteAt_found _ _ _ _ _ _ _ _ Hf) as (Hin & _ & y & Ey).
  destruct (parseScore_placed json r Hp) as (_ & _ & Hall).
  rewrite Forall_forall in Hall. destruct (Hall m Hin) as [(_ & _ & _ & Hy) _].
  rewrite Ey in Hy. symmetry in Hy.
  destruct (jadd_Num_inv _ _ _ Hy) as (u & v & Eu & Ev).
  split; [exact Hin | split; [exact (staffTopOf_Num _ _ _ Eu) |]].
  exact (pitchToYOffset_Num _ _ _ _ Ev).
Qed.

End ParserInvariants.

(* ------------------------------------------------------------------------- *)
(** ** Instances *)

(** A note of the second measure belongs to the first system's notes of its
    part. *)
Lemma vexPartNotes_placement_witness :
  (0 < NUM_SYSTEMS)%nat /\ In (sample_note 130 348 0 1) [sample_note 130 348 0 1] /\
  (In (sample_note 130 348 0 1) (vexPartNotes [sample_note 130 348 0 1] 0 0) <->
   isRest (sample_note 130 348 0 1) = false /\ partIndex (sample_note 130 348 0 1) = 0%nat /\
   (measureIndex (sample_note 130 348 0 1) < NUM_SYSTEMS * MEAS_PER_SYS)%nat /\
   SYS_OF_MEASURE (measureIndex (sample_note 130 348 0 1)) = 0%nat).
Proof.
  split; [unfold NUM_SYSTEMS; lia |]. split; [left; reflexivity |].
  apply vexPartNotes_placement; [unfold NUM_SYSTEMS; lia | left; reflexivity].
Defined.

(** Pointing at the drawn head of a note on a page-sized canvas with the
    identity calibration finds that note. *)
Lemma findNoteAt_at_drawn_head_witness :
  exists cx cy m,
    In (Num cx, Num cy)
       (head_centres (drawAllNotes [sample_note 130 348 0 0] (Num (8 # 10)) (Num 1365) (Num 1922)
                        (mkCalib (Num 0) (Num 0) (Num 1) (Num 1) (Num 1)))) /\
    findNoteAt [sample_note 130 348 0 0] (Num cx) (Num cy) (Num 1365) (Num 1922)
               (mkCalib (Num 0) (Num 0) (Num 1) (Num 1) (Num 1)) (Num 18) = Some m /\
    m = sample_note 130 348 0 0.
Proof.
  refine (ex_intro _ ?[cx] (ex_intro _ ?[cy] _)).
  assert (Hin : In (Num ?cx, Num ?cy)
       (head_centres (drawAllNotes [sample_note 130 348 0 0] (Num (8 # 10)) (Num 1365) (Num 1922)
                        (mkCalib (Num 0) (Num 0) (Num 1) (Num 1) (Num 1))))).
  { rewrite drawAllNotes_head_centres. cbn. left. reflexivity. }
  destruct (findNoteAt_at_drawn_head [sample_note 130 348 0 0] (Num (8 # 10)) 1365 1922 1 1 0 0 18
              _ _ (Num 1) ltac:(intro H; vm_compute in H; discriminate H)
              ltac:(intro H; vm_compute in H; discriminate H)
              ltac:(intro H; vm_compute in H; discriminate H) Hin)
    as (m & Hf & Hm & _).
  exists m. split; [exact Hin | split; [exact Hf |]].
  destruct Hm as [<- | []]. reflexivity.
Defined.

(** A session of slider moves within range, a calibration click and a
    reset keeps the scales in range. *)
Lemma calibration_scales_in_range_witness :
  forallb slider_in_range
    [SlideScale 150; SlideNoteSize 40; CalibrationClick (Num 40) (Num 50) (Num 800) (Num 1100);
     SlideOffsetX (-20); ResetCalibration; SlideScale 50] = true /\
  exists s k,
    scaleX (fold_left applyCalibrationAction
      [SlideScale 150; SlideNoteSize 40; CalibrationClick (Num 40) (Num 50) (Num 800) (Num 1100);
       SlideOffsetX (-20); ResetCalibration; SlideScale 50] DEFAULT_CALIB) = Num s /\
    (1 # 2 <= s <= 2)%Q /\
    noteScale (fold_left applyCalibrationAction
      [SlideScale 150; SlideNoteSize 40; CalibrationClick (Num 40) (Num 50) (Num 800) (Num 1100);
       SlideOffsetX (-20); ResetCalibration; SlideScale 50] DEFAULT_CALIB) = Num k /\
    (2 # 5 <= k <= 2)%Q.
Proof.
  split; [reflexivity |].
  destruct (calibration_scales_in_range
    [SlideScale 150; SlideNoteSize 40; CalibrationClick (Num 40) (Num 50) (Num 800) (Num 1100);
     SlideOffsetX (-20); ResetCalibration; SlideScale 50] ltac:(reflexivity))
    as (s & k & Hx & _ & Hs & Hk & Hkb).
  exists s, k. auto.
Defined.

(** The sparse document parses to one note, which gets drawn. *)
Lemma parseScore_result_shape_witness :
  exists r, parseScore sample_str_to_num sample_fmt_fraction doc_sparse = Ok r /\
    length (notes r) = 1%nat /\ length (parts r) = 1%nat /\
    Forall (fun n => parsed_placement n /\ (partIndex n < length (parts r))%nat) (notes r).
Proof.
  eexists. split; [reflexivity |].
  destruct (parseScore_result_shape sample_str_to_num sample_fmt_fraction doc_sparse _
              ltac:(reflexivity)) as (Hlen & _ & Hall & _).
  split; [reflexivity | split; [exact Hlen | exact Hall]].
Defined.

(** Clicking at the head of the sparse document's note finds it, and it is
    placed. *)
Lemma parseScore_hit_is_placed_witness :
  exists r m, parseScore sample_str_to_num sample_fmt_fraction doc_sparse = Ok r /\
    findNoteAt (notes r) (Num 130) (Num 348) (Num 1365) (Num 1922) DEFAULT_CALIBRATION (Num 18)
      = Some m /\
    (partIndex m < 3)%nat /\ STEP_NUM (step m) <> None /\ exists o, octave m = Num o.
Proof.
  do 2 eexists. split; [reflexivity |]. split; [reflexivity |].
  exact (proj2 (parseScore_hit_is_placed sample_str_to_num sample_fmt_fraction doc_sparse _
                  ltac:(reflexivity) (Num 130) (Num 348) (Num 1365) (Num 1922) (Num 18)
                  DEFAULT_CALIBRATION _ ltac:(reflexivity))).
Defined.
